(** * claude-code-viewer: permission gateway, engine options and boundary routes

    A shallow embedding of the server code that gates tool use behind a
    human decision (ClaudeCodePermissionService), of the engine wrapper
    that builds the agent SDK options (models/ClaudeCode.ts), of the abort
    route of the HTTP boundary and of the Telegram notification sender,
    followed by the properties of these functions.

    Conventions.  Effect programs are written as state-passing functions:
    the two [Ref]s of the permission service are the fields of [Gateway];
    an error channel is a sum with the error on the left; a JavaScript
    [try]/[catch] is a small exception monad.  Concurrent fibres are
    interleaved only at the points where the code suspends
    ([Effect.sleep]): what the other fibres do during one sleep is a list
    of [Action]s, and a whole run is given the list of those windows. *)

From Stdlib Require Import ZArith Lia.
From stdpp Require Import gmap strings list.

Local Open Scope string_scope.
Local Open Scope nat_scope.

(** ** Shared types (types/permissions.ts, lib/config) *)

(** The payload of a tool call is opaque to this code: it is stored and
    handed back, never inspected.  It is represented by its JSON text. *)
Definition ToolInput : Type := string.

Inductive Decision : Type := allow | deny.

Inductive PermissionMode : Type :=
  | default
  | acceptEdits
  | bypassPermissions
  | plan.

#[global] Instance Decision_eq_dec : EqDecision Decision.
Proof. solve_decision. Defined.

#[global] Instance PermissionMode_eq_dec : EqDecision PermissionMode.
Proof. solve_decision. Defined.

Record PermissionRequest : Type := {
  id : string;
  turnId : string;
  sessionId : option string;
  toolName : string;
  toolInput : ToolInput;
  timestamp : Z
}.

Record PermissionResponse : Type := {
  permissionRequestId : string;
  decision : Decision
}.

Record UserConfig : Type := {
  permissionMode : PermissionMode
}.

(** What the [canUseTool] callback hands back to the engine. *)
Inductive PermissionResult : Type :=
  | Allow (updatedInput : ToolInput)
  | Deny (message : string).

(** The single event kind the gateway publishes. *)
Inductive InternalEvent : Type :=
  | permissionRequested
      (permissionRequest : PermissionRequest)
      (projectId : option string)
      (cwd : option string).

(** ** Outcome of an effect with an error channel *)

Inductive Exit (E A : Type) : Type :=
  | Success (a : A)
  | Failure (e : E).

Arguments Success {E A} a.
Arguments Failure {E A} e.

(** ** ClaudeCodeVersion *)

Module ClaudeCodeVersion.

Record ClaudeCodeVersion : Type := {
  major : nat;
  minor : nat;
  patch : nat
}.

(** Modelled from the spec: ClaudeCodeVersion.greaterThanOrEqual is
    imported by models/ClaudeCode.ts but its file is not part of the
    sources at hand.  The specification speaks of a version being
    "lower than 1.0.82", that is the usual order on
    (major, minor, patch) triples, most significant component first. *)
Definition greaterThanOrEqual (a b : ClaudeCodeVersion) : bool :=
  if major b <? major a then true
  else if major a <? major b then false
  else if minor b <? minor a then true
  else if minor a <? minor b then false
  else patch b <=? patch a.

(** [a] is lower than [b], spelled out component by component. *)
Definition lowerThan (a b : ClaudeCodeVersion) : Prop :=
  major a < major b
  \/ (major a = major b
      /\ (minor a < minor b
          \/ (minor a = minor b /\ patch a < patch b))).

End ClaudeCodeVersion.

(** ** The options of the agent SDK's [query] *)

Module AgentSdk.

(** [AgentSdkQueryOptions], with the keys that models/ClaudeCode.ts
    names and the remaining ones kept as they come.  Every key is
    optional; [None] is a key that is absent or [undefined].  [C] is the
    type of the [canUseTool] callback and [hooks] is opaque here. *)
Record QueryOptions (C : Type) : Type := {
  canUseTool : option C;
  permissionMode : option PermissionMode;
  hooks : option string;
  systemPrompt : option string;
  settingSources : option (list string);
  pathToClaudeCodeExecutable : option string;
  disallowedTools : option (list string);
  others : list (string * string)
}.

Arguments canUseTool {C} _.
Arguments permissionMode {C} _.
Arguments hooks {C} _.
Arguments systemPrompt {C} _.
Arguments settingSources {C} _.
Arguments pathToClaudeCodeExecutable {C} _.
Arguments disallowedTools {C} _.
Arguments others {C} _.

(** One call of [agentSdk.query({ prompt, options })]. *)
Record Call (C : Type) : Type := {
  prompt : string;
  options : QueryOptions C
}.

Arguments prompt {C} _.
Arguments options {C} _.

End AgentSdk.

(** ** models/ClaudeCode.ts *)

Module ClaudeCode.

Import ClaudeCodeVersion.

Record Features : Type := {
  canUseTool : bool;
  uuidOnSDKMessage : bool;
  agentSdk : bool;
  sidechainSeparation : bool;
  runSkillsDirectly : bool
}.

Definition atLeast (claudeCodeVersion : option ClaudeCodeVersion)
    (bound : ClaudeCodeVersion) : bool :=
  match claudeCodeVersion with
  | Some v => greaterThanOrEqual v bound
  | None => false
  end.

Definition getAvailableFeatures
    (claudeCodeVersion : option ClaudeCodeVersion) : Features :=
  {| canUseTool :=
       atLeast claudeCodeVersion {| major := 1; minor := 0; patch := 82 |};
     uuidOnSDKMessage :=
       atLeast claudeCodeVersion {| major := 1; minor := 0; patch := 86 |};
     agentSdk :=
       atLeast claudeCodeVersion {| major := 1; minor := 0; patch := 125 |};
     sidechainSeparation :=
       atLeast claudeCodeVersion {| major := 2; minor := 0; patch := 28 |};
     runSkillsDirectly :=
       match claudeCodeVersion with
       | Some v =>
           greaterThanOrEqual v {| major := 2; minor := 1; patch := 0 |}
           || greaterThanOrEqual v {| major := 2; minor := 0; patch := 77 |}
       | None => false
       end |}.

Inductive Error : Type :=
  | ClaudeCodePathNotFoundError (message : string)
  | ClaudeCodeAgentSdkNotSupportedError (message : string)
  | PlatformError (message : string).

Record ConfigData : Type := {
  claudeCodeExecutablePath : string;
  claudeCodeVersion : option ClaudeCodeVersion
}.

(** What the machine answers: how [resolveClaudeCodePath] ends (the
    configured executable, else the first path of [which -a claude] in
    priority order, else [ClaudeCodePathNotFoundError]) and what
    running an executable with [--version] prints, or the
    [PlatformError] of the command. *)
Record Host : Type := {
  resolveClaudeCodePath : Exit Error string;
  versionCommand : string -> Exit Error string
}.

Section WithVersionParser.

(** [ClaudeCodeVersion.fromCLIString] lives in the same absent file
    as [greaterThanOrEqual]; nothing here depends on how it parses. *)
Variable fromCLIString : string -> option ClaudeCodeVersion.

(** [Config]: the module-level [cachedConfig] is threaded through.  This
    is one call taken as a whole, with no other call of [Config] writing
    the cache while it is suspended at its two commands;
    [ClaudeCodeOverlap.ConfigOverlapped] is the call with such writes. *)
Definition Config (host : Host) (cachedConfig : option ConfigData)
    : Exit Error ConfigData * option ConfigData :=
  match cachedConfig with
  | Some config => (Success config, cachedConfig)
  | None =>
      match resolveClaudeCodePath host with
      | Failure e => (Failure e, None)
      | Success path =>
          match versionCommand host path with
          | Failure e => (Failure e, None)
          | Success output =>
              let config :=
                {| claudeCodeExecutablePath := path;
                   claudeCodeVersion := fromCLIString output |} in
              (Success config, Some config)
          end
      end
  end.

(** The [options] object that [query] builds.  [hooks] is taken out
    by the destructuring and not put back.  [disallowedTools] is
    written after the spread of [baseOptions], so it replaces the
    caller's key. *)
Definition buildOptions {C : Type} (options : AgentSdk.QueryOptions C)
    (config : ConfigData) : AgentSdk.QueryOptions C :=
  let availableFeatures :=
    getAvailableFeatures (claudeCodeVersion config) in
  {| AgentSdk.canUseTool :=
       if canUseTool availableFeatures
       then AgentSdk.canUseTool options else None;
     AgentSdk.permissionMode :=
       if canUseTool availableFeatures
       then AgentSdk.permissionMode options
       else Some bypassPermissions;
     AgentSdk.hooks := None;
     AgentSdk.systemPrompt := AgentSdk.systemPrompt options;
     AgentSdk.settingSources := AgentSdk.settingSources options;
     AgentSdk.pathToClaudeCodeExecutable :=
       Some (claudeCodeExecutablePath config);
     AgentSdk.disallowedTools :=
       Some ("AskUserQuestion"
               :: match AgentSdk.disallowedTools options with
                  | Some tools => tools
                  | None => []
                  end);
     AgentSdk.others := AgentSdk.others options |}.

(** [query].  The object given to the SDK is
    [{ settingSources: [...], ...options }]; [options] always owns
    the key [settingSources], so the spread keeps its value. *)
Definition query {C : Type} (prompt : string)
    (options : AgentSdk.QueryOptions C)
    (host : Host) (cachedConfig : option ConfigData)
    : Exit Error (AgentSdk.Call C) * option ConfigData :=
  match Config host cachedConfig with
  | (Failure e, cache) => (Failure e, cache)
  | (Success config, cache) =>
      let availableFeatures :=
        getAvailableFeatures (claudeCodeVersion config) in
      let options' := buildOptions options config in
      if negb (agentSdk availableFeatures) then
        (Failure
           (ClaudeCodeAgentSdkNotSupportedError
              "Agent SDK is not supported in this version of Claude Code"),
         cache)
      else
        (Success {| AgentSdk.prompt := prompt;
                    AgentSdk.options := options' |},
         cache)
  end.

End WithVersionParser.

End ClaudeCode.

(** ** services/ClaudeCodePermissionService.ts: the gateway *)

Module ClaudeCodePermissionService.

(** The state the service closes over: [pendingPermissionRequestsRef],
    [permissionResponsesRef], the events given to [eventBus.emit]
    (oldest first) and the time in milliseconds, which only
    [Effect.sleep] advances. *)
Record Gateway : Type := {
  pendingPermissionRequests : gmap string PermissionRequest;
  permissionResponses : gmap string PermissionResponse;
  emitted : list InternalEvent;
  clock : Z
}.

Definition emptyGateway : Gateway :=
  {| pendingPermissionRequests := ∅;
     permissionResponses := ∅;
     emitted := [];
     clock := 0 |}.

(** [respondToPermissionRequest]: [Map.set] on the responses, then
    [Map.delete] on the pending requests.  Its type is
    [Effect.Effect<void>]: there is no error channel, and neither
    [Map.set] on a key already present nor [Map.delete] on a key that is
    absent raises. *)
Definition respondToPermissionRequest (response : PermissionResponse)
    (g : Gateway) : Exit Empty_set unit * Gateway :=
  let responses :=
    <[permissionRequestId response := response]> (permissionResponses g) in
  let requests :=
    delete (permissionRequestId response) (pendingPermissionRequests g) in
  (Success tt,
   {| pendingPermissionRequests := requests;
      permissionResponses := responses;
      emitted := emitted g;
      clock := clock g |}).

(** The first two statements of [waitPermissionResponse]: record the
    request as pending and announce it. *)
Definition announce (request : PermissionRequest)
    (projectId cwd : option string) (g : Gateway) : Gateway :=
  {| pendingPermissionRequests :=
       <[id request := request]> (pendingPermissionRequests g);
     permissionResponses := permissionResponses g;
     emitted := emitted g ++ [permissionRequested request projectId cwd];
     clock := clock g |}.

(** What another fibre can do to the gateway while this one sleeps: a
    controller answers a request, or another tool call starts its own
    wait.  (The polls of another wait only read.) *)
Inductive Action : Type :=
  | Respond (response : PermissionResponse)
  | Announce (request : PermissionRequest) (projectId cwd : option string).

Definition perform (g : Gateway) (a : Action) : Gateway :=
  match a with
  | Respond response => snd (respondToPermissionRequest response g)
  | Announce request projectId cwd => announce request projectId cwd g
  end.

(** [Effect.sleep(ms)]: the clock advances by [ms] and the other fibres
    run their actions of this window. *)
Definition sleep (ms : Z) (window : list Action) (g : Gateway) : Gateway :=
  foldl perform
    {| pendingPermissionRequests := pendingPermissionRequests g;
       permissionResponses := permissionResponses g;
       emitted := emitted g;
       clock := (clock g + ms)%Z |}
    window.

Record WaitOptions : Type := {
  timeoutMs : Z;
  wProjectId : option string;
  wCwd : option string
}.

(** The [while (passedMs < options.timeoutMs)] loop.  [windows] lists
    what the other fibres do during the successive sleeps of this wait
    (nothing once the list is used up).  The local variable [response]
    is [null] whenever the loop condition is evaluated (a non-null value
    leaves through [break]), so the exit through the condition returns
    [None].  [fuel] bounds the number of condition checks; [None] at top
    level means the bound was too small, not a result of the code. *)
Fixpoint pollLoop (fuel : nat) (windows : list (list Action))
    (requestId : string) (timeout passedMs : Z) (g : Gateway)
    : option (option PermissionResponse * Gateway) :=
  match fuel with
  | O => None
  | S fuel' =>
      if (passedMs <? timeout)%Z then
        match permissionResponses g !! requestId with
        | Some response => Some (Some response, g)
        | None =>
            pollLoop fuel' (tail windows) requestId timeout
              (passedMs + 1000)%Z (sleep 1000 (hd [] windows) g)
        end
      else Some (None, g)
  end.

Definition waitPermissionResponse (fuel : nat)
    (windows : list (list Action))
    (request : PermissionRequest) (options : WaitOptions) (g : Gateway)
    : option (option PermissionResponse * Gateway) :=
  pollLoop fuel windows (id request) (timeoutMs options) 0%Z
    (announce request (wProjectId options) (wCwd options) g).

(** Condition checks that are enough for a wait of [timeout] ms: one per
    started second, and the last one that leaves the loop. *)
Definition enoughFuel (timeout : Z) : nat :=
  S (Z.to_nat ((timeout + 999) / 1000)).

(** *** [createCanUseToolRelatedOptions]: the callback *)

Record CallbackContext : Type := {
  cTurnId : string;
  cUserConfig : UserConfig;
  cSessionId : option string;
  cProjectId : option string;
  cCwd : option string
}.

(** What the callback reads from its surroundings: the identifier that
    [ulid()] yields and the value of [Date.now()]. *)
Record Ambient : Type := {
  ulid : string;
  now : Z
}.

Definition canUseTool (ctx : CallbackContext) (fuel : nat)
    (ambient : Ambient) (windows : list (list Action))
    (tool : string) (input : ToolInput) (g : Gateway)
    : option (PermissionResult * Gateway) :=
  let mode := permissionMode (cUserConfig ctx) in
  if bool_decide (mode ≠ default) then
    if bool_decide (mode = bypassPermissions)
       || bool_decide (mode = acceptEdits)
    then Some (Allow input, g)
    else Some (Deny "Tool execution is disabled in plan mode", g)
  else
    let permissionRequest :=
      {| id := ulid ambient;
         turnId := cTurnId ctx;
         sessionId := cSessionId ctx;
         toolName := tool;
         toolInput := input;
         timestamp := now ambient |} in
    match
      waitPermissionResponse fuel windows permissionRequest
        {| timeoutMs := 60000;
           wProjectId := cProjectId ctx;
           wCwd := cCwd ctx |} g
    with
    | None => None
    | Some (None, g') => Some (Deny "Permission request timed out", g')
    | Some (Some response, g') =>
        if bool_decide (decision response = allow)
        then Some (Allow input, g')
        else Some (Deny "Permission denied by user", g')
    end.

(** The callback as the engine holds it. *)
Definition CanUseTool : Type :=
  nat -> Ambient -> list (list Action) -> string -> ToolInput ->
  Gateway -> option (PermissionResult * Gateway).

Record CanUseToolRelatedOptions : Type := {
  optCanUseTool : option CanUseTool;
  optPermissionMode : PermissionMode
}.

Definition createCanUseToolRelatedOptions
    (fromCLIString : string -> option ClaudeCodeVersion.ClaudeCodeVersion)
    (ctx : CallbackContext)
    (host : ClaudeCode.Host) (cachedConfig : option ClaudeCode.ConfigData)
    : Exit ClaudeCode.Error CanUseToolRelatedOptions
      * option ClaudeCode.ConfigData :=
  match ClaudeCode.Config fromCLIString host cachedConfig with
  | (Failure e, cache) => (Failure e, cache)
  | (Success claudeCodeConfig, cache) =>
      if negb (ClaudeCode.canUseTool
                 (ClaudeCode.getAvailableFeatures
                    (ClaudeCode.claudeCodeVersion claudeCodeConfig)))
      then
        (Success {| optCanUseTool := None;
                    optPermissionMode := bypassPermissions |},
         cache)
      else
        (Success {| optCanUseTool := Some (canUseTool ctx);
                    optPermissionMode := permissionMode (cUserConfig ctx) |},
         cache)
  end.

End ClaudeCodePermissionService.

(** ** The abort route of [claudeCodeRoutes] *)

Module Routes.

Inductive ResponseBody : Type :=
  | JsonMessage (message : string)
  | ValidationIssues.

Record Response : Type := {
  status : nat;
  body : ResponseBody
}.

(** The body accepted by [z.object({ projectId: z.string() })]. *)
Record AbortBody : Type := {
  projectId : string
}.

Section WithLifeCycleService.

(** [ClaudeCodeLifeCycleService.abortTask] is outside the sources at
    hand.  It is left open here: any state [World] it may act on, any
    error type, any outcome for any identifier. *)
Variables (World E : Type).
Variable abortTask : string -> World -> Exit E unit * World.

(** [Effect.runFork]: the effect runs in a fibre of its own and its
    exit stays with that fibre; the caller gets the fibre handle,
    which the route drops ([void]). *)
Definition runFork {A : Type} (effect : World -> Exit E A * World)
    (w : World) : World :=
  snd (effect w).

Definition abortHandler (sessionProcessId : string) (json : AbortBody)
    (w : World) : Response * World :=
  let w' := runFork (abortTask sessionProcessId) w in
  ({| status := 200; body := JsonMessage "Task aborted" |}, w').

(** The route: [zValidator] answers 400 itself when the body does not
    validate ([None]) and only otherwise runs the handler. *)
Definition abortRoute (sessionProcessId : string)
    (json : option AbortBody) (w : World) : Response * World :=
  match json with
  | None => ({| status := 400; body := ValidationIssues |}, w)
  | Some valid => abortHandler sessionProcessId valid w
  end.

End WithLifeCycleService.

End Routes.

(** ** [sendTelegramMessage] of the Telegram notification service *)

Module TelegramNotificationService.

(** How a JavaScript computation ends: with a value, or by throwing
    (for a promise: resolved or rejected). *)
Inductive Completion (A : Type) : Type :=
  | Normal (a : A)
  | Throw (error : string).

Arguments Normal {A} a.
Arguments Throw {A} error.

Inductive LogArg : Type :=
  | Text (s : string)
  | Number (n : nat).

(** One call of [console.error] with its arguments. *)
Definition LogEntry : Type := list LogArg.

(** Computations that may throw and that write to the console. *)
Definition Js (A : Type) : Type :=
  list LogEntry -> Completion A * list LogEntry.

Definition ret {A : Type} (a : A) : Js A := fun log => (Normal a, log).

Definition bind {A B : Type} (m : Js A) (k : A -> Js B) : Js B :=
  fun log =>
    match m log with
    | (Normal a, log') => k a log'
    | (Throw e, log') => (Throw e, log')
    end.

(** [await] of a promise that has settled as [c]. *)
Definition await {A : Type} (c : Completion A) : Js A := fun log => (c, log).

Definition consoleError (args : list LogArg) : Js unit :=
  fun log => (Normal tt, (log ++ [args])%list).

Definition tryCatch {A : Type} (body : Js A) (handler : string -> Js A)
    : Js A :=
  fun log =>
    match body log with
    | (Normal a, log') => (Normal a, log')
    | (Throw e, log') => handler e log'
    end.

#[local] Instance Js_ret : MRet Js := @ret.
#[local] Instance Js_bind : MBind Js := fun A B k m => bind m k.

(** The part of a [Response] that is read: [ok], [status] and how the
    promise of [response.text()] settles. *)
Record FetchResponse : Type := {
  ok : bool;
  status : nat;
  bodyText : Completion string
}.

Record Button : Type := {
  buttonText : string;
  buttonUrl : string
}.

(** The object that is serialized into the request body. *)
Record MessageBody : Type := {
  chat_id : string;
  messageText : string;
  parse_mode : string;
  link_preview_is_disabled : bool;
  reply_markup : option (list (list Button))
}.

Record Request : Type := {
  url : string;
  method : string;
  contentType : string;
  requestBody : MessageBody
}.

(** [fetch]: how the outbound request ends, for each request. *)
Definition Network : Type := Request -> Completion FetchResponse.

Definition sendTelegramMessage (fetch : Network)
    (botToken chatId text : string)
    (inlineKeyboard : option (list (list Button))) : Js unit :=
  tryCatch
    (let body :=
       {| chat_id := chatId;
          messageText := text;
          parse_mode := "HTML";
          link_preview_is_disabled := true;
          reply_markup := inlineKeyboard |} in
     response ← await
       (fetch {| url := "https://api.telegram.org/bot" +:+ botToken
                          +:+ "/sendMessage";
                 method := "POST";
                 contentType := "application/json";
                 requestBody := body |});
     if negb (ok response) then
       errorText ← await (bodyText response);
       consoleError
         [Text "Telegram API error:"; Number (status response);
          Text errorText]
     else ret tt)
    (fun error =>
       consoleError [Text "Failed to send Telegram notification:";
                     Text error]).

End TelegramNotificationService.

(** * Vocabulary of the statements *)

Module GatewaySpec.

Import ClaudeCodePermissionService.

(** The action does not answer the request [requestId]. *)
Definition quiet (requestId : string) (a : Action) : Prop :=
  match a with
  | Respond response => permissionRequestId response ≠ requestId
  | Announce _ _ _ => True
  end.

(** No response is ever recorded for [requestId]: none is stored when the
    wait starts and no other fibre answers it meanwhile. *)
Definition neverAnswered (requestId : string)
    (windows : list (list Action)) (g : Gateway) : Prop :=
  permissionResponses g !! requestId = None
  /\ Forall (Forall (quiet requestId)) windows.

(** Poll intervals still to be slept through from [passedMs]. *)
Definition rounds (timeout passedMs : Z) : Z :=
  ((timeout - passedMs + 999) / 1000)%Z.

(** The resolution a wait hands back, if it returns. *)
Definition observed (run : option (option PermissionResponse * Gateway))
    : option (option PermissionResponse) :=
  fst <$> run.

(** The request and the wait options that [canUseTool] builds in default
    mode. *)
Definition requestOf (ctx : CallbackContext) (ambient : Ambient)
    (tool : string) (input : ToolInput) : PermissionRequest :=
  {| id := ulid ambient;
     turnId := cTurnId ctx;
     sessionId := cSessionId ctx;
     toolName := tool;
     toolInput := input;
     timestamp := now ambient |}.

Definition waitOf (ctx : CallbackContext) : WaitOptions :=
  {| timeoutMs := 60000; wProjectId := cProjectId ctx; wCwd := cCwd ctx |}.

(** Concrete data for the examples. *)
Definition sampleRequest : PermissionRequest :=
  {| id := "01J9ZQ4R8N";
     turnId := "turn-1";
     sessionId := None;
     toolName := "Bash";
     toolInput := "{}";
     timestamp := 0 |}.

Definition wait200 : WaitOptions :=
  {| timeoutMs := 200; wProjectId := None; wCwd := None |}.

Definition wait60s : WaitOptions :=
  {| timeoutMs := 60000; wProjectId := None; wCwd := None |}.

Definition sampleAllow : PermissionResponse :=
  {| permissionRequestId := "01J9ZQ4R8N"; decision := allow |}.

Definition sampleDeny : PermissionResponse :=
  {| permissionRequestId := "01J9ZQ4R8N"; decision := deny |}.

Definition sampleContext (mode : PermissionMode) : CallbackContext :=
  {| cTurnId := "turn-1";
     cUserConfig := {| permissionMode := mode |};
     cSessionId := None;
     cProjectId := Some "project-1";
     cCwd := Some "/home/user/repo" |}.

Definition sampleAmbient : Ambient := {| ulid := "01J9ZQ4R8N"; now := 0 |}.

End GatewaySpec.

Module VersionSpec.

Import ClaudeCodeVersion.

(** The version is [null] or lower than [bound]. *)
Definition below (claudeCodeVersion : option ClaudeCodeVersion)
    (bound : ClaudeCodeVersion) : Prop :=
  claudeCodeVersion = None
  \/ exists v, claudeCodeVersion = Some v /\ lowerThan v bound.

Definition v1_0_82 : ClaudeCodeVersion :=
  {| major := 1; minor := 0; patch := 82 |}.

Definition v1_0_125 : ClaudeCodeVersion :=
  {| major := 1; minor := 0; patch := 125 |}.

(** The error [query] raises for an engine without the agent SDK. *)
Definition notSupported : ClaudeCode.Error :=
  ClaudeCode.ClaudeCodeAgentSdkNotSupportedError
    "Agent SDK is not supported in this version of Claude Code".

(** The options [createCanUseToolRelatedOptions] returns for an engine
    without the [canUseTool] feature. *)
Definition bypassOnly : ClaudeCodePermissionService.CanUseToolRelatedOptions :=
  {| ClaudeCodePermissionService.optCanUseTool := None;
     ClaudeCodePermissionService.optPermissionMode := bypassPermissions |}.

(** Concrete data for the examples: a machine whose [claude] prints a
    fixed version line, and parsers that read 1.0.60, 1.0.100 and 2.0.30
    from it. *)
Definition sampleHost : ClaudeCode.Host :=
  {| ClaudeCode.resolveClaudeCodePath := Success "/usr/local/bin/claude";
     ClaudeCode.versionCommand := fun _ => Success "x.y.z (Claude Code)" |}.

Definition reads (v : ClaudeCodeVersion) (output : string)
    : option ClaudeCodeVersion :=
  Some v.

Definition v1_0_60 : ClaudeCodeVersion :=
  {| major := 1; minor := 0; patch := 60 |}.

Definition v1_0_100 : ClaudeCodeVersion :=
  {| major := 1; minor := 0; patch := 100 |}.

Definition v2_0_30 : ClaudeCodeVersion :=
  {| major := 2; minor := 0; patch := 30 |}.

Definition sampleConfig (v : ClaudeCodeVersion) : ClaudeCode.ConfigData :=
  {| ClaudeCode.claudeCodeExecutablePath := "/usr/local/bin/claude";
     ClaudeCode.claudeCodeVersion := Some v |}.

Definition sampleOptions : AgentSdk.QueryOptions unit :=
  {| AgentSdk.canUseTool := Some tt;
     AgentSdk.permissionMode := Some default;
     AgentSdk.hooks := None;
     AgentSdk.systemPrompt := None;
     AgentSdk.settingSources := None;
     AgentSdk.pathToClaudeCodeExecutable := None;
     AgentSdk.disallowedTools := Some ["WebSearch"];
     AgentSdk.others := [("cwd", "/home/user/repo")] |}.

End VersionSpec.

Module TelegramSpec.

Import TelegramNotificationService.

(** The request [sendTelegramMessage] hands to [fetch]. *)
Definition telegramRequest (botToken chatId text : string)
    (inlineKeyboard : option (list (list Button))) : Request :=
  {| url := "https://api.telegram.org/bot" +:+ botToken +:+ "/sendMessage";
     method := "POST";
     contentType := "application/json";
     requestBody :=
       {| chat_id := chatId;
          messageText := text;
          parse_mode := "HTML";
          link_preview_is_disabled := true;
          reply_markup := inlineKeyboard |} |}.

(** The two console entries it can write. *)
Definition failedToSend (error : string) : LogEntry :=
  [Text "Failed to send Telegram notification:"; Text error].

Definition apiError (status : nat) (errorText : string) : LogEntry :=
  [Text "Telegram API error:"; Number status; Text errorText].

End TelegramSpec.

(** ** JavaScript string helpers used by the functions below *)

Module JsString.

(** [s.split(sep)] for a separator of one character: the pieces between
    the separators, empty pieces included; never the empty list. *)
Fixpoint splitOn (sep : Ascii.ascii) (s : string) : list string :=
  match s with
  | EmptyString => [EmptyString]
  | String c rest =>
      if Ascii.eqb c sep then EmptyString :: splitOn sep rest
      else match splitOn sep rest with
           | [] => [String c EmptyString]
           | piece :: pieces => String c piece :: pieces
           end
  end.

(** [s.replace(/c/g, d)] and [s.replaceAll(c, d)] for single characters. *)
Fixpoint replaceChar (c d : Ascii.ascii) (s : string) : string :=
  match s with
  | EmptyString => EmptyString
  | String x rest =>
      String (if Ascii.eqb x c then d else x) (replaceChar c d rest)
  end.

(** [parts.join(sep)]. *)
Definition join (sep : string) (parts : list string) : string :=
  String.concat sep parts.

(** The character occurs in the string. *)
Fixpoint occurs (c : Ascii.ascii) (s : string) : bool :=
  match s with
  | EmptyString => false
  | String x rest => Ascii.eqb x c || occurs c rest
  end.

Definition LF : Ascii.ascii := Ascii.ascii_of_nat 10.
Definition slash : Ascii.ascii := Ascii.ascii_of_nat 47.
Definition backslash : Ascii.ascii := Ascii.ascii_of_nat 92.

End JsString.

(** ** [resolveClaudeCodePath] and [claudeCodePathPriority] *)

Module ClaudeCodePath.

(** What the lookup reads: the executable option of the viewer
    ([undefined] is [None]) and the output of [which -a claude], [None]
    when the command fails (the failure is caught and stands for no
    path). *)
Record Lookup : Type := {
  executable : option string;
  whichOutput : option string
}.

Section WithPlatform.

(** The tests of [npxCacheRegExp] and of [localNodeModulesBinRegExp]
    (which is built from the working directory of the process),
    [path.resolve] and [String.prototype.trim] are the platform's. *)
Variables (npxCache localNodeModulesBin : string -> bool).
Variable pathResolve : string -> string.
Variable trim : string -> string.

Definition claudeCodePathPriority (path : string) : nat :=
  if npxCache path then 0
  else if localNodeModulesBin path then 1
  else 2.

(** The comparator given to [toSorted]. *)
Definition byPriority (a b : string) : Z :=
  let aPriority := claudeCodePathPriority a in
  let bPriority := claudeCodePathPriority b in
  if aPriority <? bPriority then 1%Z
  else if bPriority <? aPriority then (-1)%Z
  else 0%Z.

(** [toSorted] is a stable sort; for a comparator that orders by a key
    its result is determined, and insertion from the right computes it:
    an element goes behind those it must follow and stays in front of
    its equals, which stood after it. *)
Fixpoint insertSorted (compare : string -> string -> Z) (x : string)
    (sorted : list string) : list string :=
  match sorted with
  | [] => [x]
  | y :: rest =>
      if (0 <? compare x y)%Z then y :: insertSorted compare x rest
      else x :: y :: rest
  end.

Definition toSorted (compare : string -> string -> Z) (l : list string)
    : list string :=
  foldr (insertSorted compare) [] l.

(** [uniq] of es-toolkit: the elements in the order of their first
    occurrence ([seen] is the [Set] being filled). *)
Fixpoint uniqFrom (seen : gset string) (l : list string) : list string :=
  match l with
  | [] => []
  | x :: rest =>
      if decide (x ∈ seen) then uniqFrom seen rest
      else x :: uniqFrom ({[x]} ∪ seen) rest
  end.

Definition uniq (l : list string) : list string := uniqFrom ∅ l.

Definition resolveClaudeCodePath (lookup : Lookup)
    : Exit ClaudeCode.Error string :=
  match executable lookup with
  | Some specifiedExecutablePath =>
      Success (pathResolve specifiedExecutablePath)
  | None =>
      let claudePaths :=
        match whichOutput lookup with
        | Some output =>
            toSorted byPriority
              (uniq
                 (filter (fun line => line ≠ EmptyString)
                    (map trim (JsString.splitOn JsString.LF output))))
        | None => []
        end in
      match claudePaths with
      | [] =>
          Failure
            (ClaudeCode.ClaudeCodePathNotFoundError
               "Claude Code CLI not found in any location")
      | resolvedClaudePath :: _ => Success resolvedClaudePath
      end
  end.

(** The paths [which] offers: the trimmed lines that are not empty, in
    the order of the output. *)
Definition candidates (lookup : Lookup) : list string :=
  match whichOutput lookup with
  | Some output =>
      filter (fun line => line ≠ EmptyString)
        (map trim (JsString.splitOn JsString.LF output))
  | None => []
  end.

End WithPlatform.

(** Concrete data for the examples: an output of [which -a claude] with
    a path in the npx cache, one in the local node_modules/.bin and two
    elsewhere, the two tests as prefix tests, and lines that need no
    trimming. *)
Definition sampleNpxCache (path : string) : bool :=
  String.prefix "/home/u/.npm/_npx/" path.

Definition sampleLocalBin (path : string) : bool :=
  String.prefix "/srv/viewer/node_modules/.bin" path.

Definition sampleTrim (line : string) : string := line.

Definition sampleLookup : Lookup :=
  {| executable := None;
     whichOutput :=
       Some (JsString.join (String JsString.LF EmptyString)
               ["/home/u/.npm/_npx/1a2b/node_modules/.bin/claude";
                "/srv/viewer/node_modules/.bin/claude";
                "/usr/local/bin/claude";
                "/usr/bin/claude";
                "/usr/local/bin/claude";
                ""]) |}.

End ClaudeCodePath.

(** ** [extractRepoName] of the Telegram notification service *)

Module RepoName.

Import JsString.

(** [s.replace(/\/$/, "")]: one slash at the very end is removed. *)
Fixpoint dropTrailingSlash (s : string) : string :=
  match s with
  | EmptyString => EmptyString
  | String c rest =>
      match rest with
      | EmptyString =>
          if Ascii.eqb c slash then EmptyString else String c EmptyString
      | String _ _ => String c (dropTrailingSlash rest)
      end
  end.

(** [parts.slice(-3)]. *)
Definition lastThree (parts : list string) : list string :=
  drop (length parts - 3) parts.

Definition extractRepoName (cwd : string) : string :=
  let parts :=
    filter (fun part => part ≠ EmptyString)
      (splitOn slash (dropTrailingSlash (replaceChar backslash slash cwd))) in
  if 3 <=? length parts then join "-" (lastThree parts)
  else
    match join "-" parts with
    | EmptyString => "unknown"
    | joined => joined
    end.

End RepoName.

(** ** [normalizeWindowsPath] of the project meta service *)

Module WindowsPath.

Import JsString.

Definition isLetter (c : Ascii.ascii) : bool :=
  let n := Ascii.nat_of_ascii c in
  ((65 <=? n) && (n <=? 90)) || ((97 <=? n) && (n <=? 122)).

(** [toUpperCase] on one character that is a letter of [A-Za-z]. *)
Definition toUpperCase (c : Ascii.ascii) : Ascii.ascii :=
  let n := Ascii.nat_of_ascii c in
  if (97 <=? n) && (n <=? 122) then Ascii.ascii_of_nat (n - 32) else c.

(** [p.match(/^([A-Za-z]):\\/)] together with [p.slice(3)]: the drive
    letter and what follows the three matched characters. *)
Definition driveOf (p : string) : option (Ascii.ascii * string) :=
  match p with
  | String d (String colon (String sep tail)) =>
      if isLetter d && Ascii.eqb colon (Ascii.ascii_of_nat 58)
         && Ascii.eqb sep backslash
      then Some (d, tail) else None
  | _ => None
  end.

(** The replacement text of [String.prototype.replace] for a pattern
    that is a string (no captures): [$$] is a dollar, [$&] the matched
    text, [$`] the text before the match (empty here, the match is at
    the start), [$'] the text after it; any other dollar stands for
    itself. *)
Fixpoint getSubstitution (matched after template : string) : string :=
  match template with
  | EmptyString => EmptyString
  | String c rest =>
      if Ascii.eqb c (Ascii.ascii_of_nat 36) then
        match rest with
        | String k rest' =>
            if Ascii.eqb k (Ascii.ascii_of_nat 36)
            then String k (getSubstitution matched after rest')
            else if Ascii.eqb k (Ascii.ascii_of_nat 38)
            then matched +:+ getSubstitution matched after rest'
            else if Ascii.eqb k (Ascii.ascii_of_nat 96)
            then getSubstitution matched after rest'
            else if Ascii.eqb k (Ascii.ascii_of_nat 39)
            then after +:+ getSubstitution matched after rest'
            else String c (getSubstitution matched after rest)
        | EmptyString => String c EmptyString
        end
      else String c (getSubstitution matched after rest)
  end.

(** [s.replace(prefix, replacement)] when [s.startsWith(prefix)]: the
    first occurrence is the one at the start. *)
Definition replacePrefix (s prefix replacement : string) : string :=
  let after := String.substring (String.length prefix)
                 (String.length s - String.length prefix) s in
  getSubstitution prefix after replacement +:+ after.

(** [mappings] is how reading the path mappings ends:
    [Object.entries(JSON.parse(process.env.CCV_PATH_MAPPINGS ?? "{}"))]
    with each value as the string [replace] makes of it, or the error
    that [JSON.parse] or [Object.entries] throws.  It is only evaluated
    for a path with a drive. *)
Definition normalizeWindowsPath
    (mappings : Exit string (list (string * string))) (p : string)
    : Exit string string :=
  match driveOf p with
  | None => Success p
  | Some (d, tail) =>
      let driveLetter := toUpperCase d in
      let rest := replaceChar backslash slash tail in
      match mappings with
      | Failure e => Failure e
      | Success entries =>
          let normalized := String driveLetter (":/" +:+ rest) in
          match
            find (fun entry => String.prefix (fst entry) normalized) entries
          with
          | Some (winPrefix, linuxPrefix) =>
              Success (replacePrefix normalized winPrefix linuxPrefix)
          | None => Success (String slash (String driveLetter (":/" +:+ rest)))
          end
      end
  end.

(** The path without mapping: a slash, the drive letter in upper case, a
    colon, and the rest with its backslashes turned into slashes. *)
Definition unixForm (d : Ascii.ascii) (tail : string) : string :=
  String slash
    (String (toUpperCase d) (":/" +:+ replaceChar backslash slash tail)).

(** Concrete data for the examples: the path c:\Users\me\repo. *)
Definition lowerC : Ascii.ascii := Ascii.ascii_of_nat 99.

Definition samplePath : string := String lowerC ":\Users\me\repo".

End WindowsPath.

(** ** [normalizeProjectPath] of the tasks service *)

Module TasksService.

Import JsString.

Definition dash : Ascii.ascii := Ascii.ascii_of_nat 45.

(** [sep] is [path.sep], one character. *)
Definition normalizeProjectPath (sep : Ascii.ascii) (projectPath : string)
    : string :=
  let normalized := replaceChar sep dash projectPath in
  if String.prefix "-" normalized then normalized
  else String dash normalized.

End TasksService.

(** ** [normalizeUserMessageInput] of the routes *)

Module UserMessage.

Section WithSource.

(** The source of an image or a document is a value of the request
    schema, which is not at hand: its type is left open, and [truthy] is
    JavaScript's conversion of such a value to a boolean, which is what
    the test [!document.source] looks at. *)
Variable Source : Type.
Variable truthy : Source -> bool.

(** An image and a document as the request schema lets them in: a type,
    a source ([None] when the key is absent or [undefined]) and whatever
    other keys the schema allows. *)
Record ImageInput : Type := {
  imageType : string;
  imageSource : Source;
  imageOther : list (string * string)
}.

Record DocumentInput : Type := {
  documentType : string;
  documentSource : option Source;
  documentOther : list (string * string)
}.

(** What is handed on for either: the type and the source, nothing
    else. *)
Record Part : Type := {
  type : string;
  source : Source
}.

Record Input : Type := {
  inputText : string;
  inputImages : option (list ImageInput);
  inputDocuments : option (list DocumentInput)
}.

Record UserMessageInput : Type := {
  text : string;
  images : option (list Part);
  documents : option (list Part)
}.

(** [!document.source]: the source is missing or converts to false. *)
Definition lacksSource (document : DocumentInput) : bool :=
  match documentSource document with
  | Some s => negb (truthy s)
  | None => true
  end.

(** [documents.map(...)] with a callback that may throw: the first
    document whose source is missing or falsy ends the map with the
    error. *)
Fixpoint mapDocuments (docs : list DocumentInput)
    : Exit string (list Part) :=
  match docs with
  | [] => Success []
  | document :: rest =>
      match documentSource document with
      | None => Failure "Document source is required"
      | Some s =>
          if negb (truthy s) then Failure "Document source is required"
          else
            match mapDocuments rest with
            | Failure e => Failure e
            | Success mapped =>
                Success ({| type := documentType document; source := s |}
                           :: mapped)
            end
      end
  end.

Definition normalizeUserMessageInput (input : Input)
    : Exit string UserMessageInput :=
  let images :=
    match inputImages input with
    | Some l =>
        Some (map (fun image => {| type := imageType image;
                                   source := imageSource image |}) l)
    | None => None
    end in
  match inputDocuments input with
  | None =>
      Success {| text := inputText input; images := images;
                 documents := None |}
  | Some docs =>
      match mapDocuments docs with
      | Failure e => Failure e
      | Success mapped =>
          Success {| text := inputText input; images := images;
                     documents := Some mapped |}
      end
  end.

End WithSource.

Arguments imageType {Source} _.
Arguments imageSource {Source} _.
Arguments imageOther {Source} _.
Arguments documentType {Source} _.
Arguments documentSource {Source} _.
Arguments documentOther {Source} _.
Arguments type {Source} _.
Arguments source {Source} _.
Arguments inputText {Source} _.
Arguments inputImages {Source} _.
Arguments inputDocuments {Source} _.
Arguments text {Source} _.
Arguments images {Source} _.
Arguments documents {Source} _.
Arguments lacksSource {Source} truthy document.
Arguments mapDocuments {Source} truthy docs.
Arguments normalizeUserMessageInput {Source} truthy input.

(** Concrete data for the examples: sources that are strings, of which
    only the empty one converts to false. *)
Definition stringTruthy (s : string) : bool :=
  negb (String.eqb s EmptyString).

End UserMessage.

(** ** [Config] when calls overlap *)

Module ClaudeCodeOverlap.

Section WithVersionParser.

Variable fromCLIString :
  string -> option ClaudeCodeVersion.ClaudeCodeVersion.

(** [Config] tests [cachedConfig] and, when it is empty, suspends at
    [which -a claude] and at [--version] before it assigns the cache.
    Other calls of [Config] that started while the cache was empty can
    finish during these suspensions: [written] is what they have
    assigned to [cachedConfig] by the time this call resumes for the
    last time ([None] if no such call finished).  A call that finds the
    cache set returns at once; one that detects assigns its own
    configuration over whatever is there; one that fails leaves what
    the others wrote. *)
Definition ConfigOverlapped (host : ClaudeCode.Host)
    (written cachedConfig : option ClaudeCode.ConfigData)
    : Exit ClaudeCode.Error ClaudeCode.ConfigData
      * option ClaudeCode.ConfigData :=
  match cachedConfig with
  | Some config => (Success config, cachedConfig)
  | None =>
      match ClaudeCode.resolveClaudeCodePath host with
      | Failure e => (Failure e, written)
      | Success path =>
          match ClaudeCode.versionCommand host path with
          | Failure e => (Failure e, written)
          | Success output =>
              let config :=
                {| ClaudeCode.claudeCodeExecutablePath := path;
                   ClaudeCode.claudeCodeVersion := fromCLIString output |} in
              (Success config, Some config)
          end
      end
  end.

End WithVersionParser.

End ClaudeCodeOverlap.

(** ** The abort operation of the life cycle service *)

Module LifeCycle.

(** The states of a session process, as the specification lists them. *)
Inductive SessionProcessState : Type :=
  | starting
  | running
  | waitingPermission
  | paused
  | completed
  | aborted
  | failed.

Definition terminal (state : SessionProcessState) : bool :=
  match state with
  | completed | aborted | failed => true
  | starting | running | waitingPermission | paused => false
  end.

Inductive LifeCycleError : Type :=
  | NotFound (sessionProcessId : string).

(** Modelled from the spec: [ClaudeCodeLifeCycleService.abortTask] is
    called by the abort route but its file is not part of the sources at
    hand.  The specification says: "abortTask(sessionProcessId):
    best-effort cancellation signal to the underlying engine invocation;
    transitions the record to aborted once the engine confirms or a
    short grace period elapses.  Abort of an already-terminal process is
    a no-op, not an error."  The table maps the identifiers of the
    tracked processes to their states.  How the operation ends for an
    identifier it does not know is not said: [unknown] leaves it open;
    there is then no record to transition. *)
Definition abortTask (unknown : Exit LifeCycleError unit)
    (sessionProcessId : string)
    (processes : gmap string SessionProcessState)
    : Exit LifeCycleError unit * gmap string SessionProcessState :=
  match processes !! sessionProcessId with
  | None => (unknown, processes)
  | Some state =>
      if terminal state then (Success tt, processes)
      else (Success tt, <[sessionProcessId := aborted]> processes)
  end.

End LifeCycle.

(** ** Concrete machines for the examples *)

Module EngineExamples.


End EngineExamples.

(** * Vocabulary of the further statements *)

Module GatewayRuns.

Import ClaudeCodePermissionService.

(** The response that a window of actions leaves stored for [requestId],
    if it answers that request at all: the one of its last [Respond] for
    that identifier. *)
Definition lastAnswer (requestId : string) (window : list Action)
    : option PermissionResponse :=
  foldl
    (fun found a =>
       match a with
       | Respond response =>
           if bool_decide (permissionRequestId response = requestId)
           then Some response else found
       | Announce _ _ _ => found
       end)
    None window.

(** The gateway after sleeping one poll interval per window. *)
Definition sleepThrough (windows : list (list Action)) (g : Gateway)
    : Gateway :=
  foldl (fun g' window => sleep 1000 window g') g windows.

End GatewayRuns.

(** * Properties *)

(** ** The permission gateway *)

Module PermissionGatewayProperties.

Import ClaudeCodePermissionService GatewaySpec.

Lemma perform_clock g a : clock (perform g a) = clock g.
Proof. destruct a; reflexivity. Qed.

Lemma perform_quiet_responses requestId g a :
  quiet requestId a ->
  permissionResponses (perform g a) !! requestId
  = permissionResponses g !! requestId.
Proof.
  destruct a as [response | request projectId cwd]; simpl; intros Hq.
  - by rewrite lookup_insert_ne.
  - reflexivity.
Qed.

Lemma perform_quiet_pending requestId g a :
  quiet requestId a ->
  is_Some (pendingPermissionRequests g !! requestId) ->
  is_Some (pendingPermissionRequests (perform g a) !! requestId).
Proof.
  destruct a as [response | request projectId cwd]; simpl; intros Hq Hp.
  - by rewrite lookup_delete_ne.
  - destruct (decide (id request = requestId)) as [-> | Hne].
    + rewrite lookup_insert_eq. eauto.
    + by rewrite lookup_insert_ne.
Qed.

Lemma run_clock window g : clock (foldl perform g window) = clock g.
Proof.
  revert g. induction window as [| a window IH]; intros g; simpl.
  - reflexivity.
  - by rewrite IH, perform_clock.
Qed.

Lemma run_quiet_responses requestId window g :
  Forall (quiet requestId) window ->
  permissionResponses (foldl perform g window) !! requestId
  = permissionResponses g !! requestId.
Proof.
  intros Hq. revert g.
  induction Hq as [| a window Ha _ IH]; intros g; simpl.
  - reflexivity.
  - by rewrite IH, perform_quiet_responses.
Qed.

Lemma run_quiet_pending requestId window g :
  Forall (quiet requestId) window ->
  is_Some (pendingPermissionRequests g !! requestId) ->
  is_Some (pendingPermissionRequests (foldl perform g window) !! requestId).
Proof.
  intros Hq. revert g.
  induction Hq as [| a window Ha _ IH]; intros g Hp; simpl.
  - exact Hp.
  - apply IH. by apply perform_quiet_pending.
Qed.

Lemma sleep_clock ms window g : clock (sleep ms window g) = (clock g + ms)%Z.
Proof. unfold sleep. by rewrite run_clock. Qed.

Lemma sleep_quiet_responses requestId ms window g :
  Forall (quiet requestId) window ->
  permissionResponses (sleep ms window g) !! requestId
  = permissionResponses g !! requestId.
Proof. intros Hq. unfold sleep. by rewrite run_quiet_responses. Qed.

Lemma sleep_quiet_pending requestId ms window g :
  Forall (quiet requestId) window ->
  is_Some (pendingPermissionRequests g !! requestId) ->
  is_Some (pendingPermissionRequests (sleep ms window g) !! requestId).
Proof. intros Hq Hp. unfold sleep. by apply run_quiet_pending. Qed.

Lemma quiet_hd requestId (windows : list (list Action)) :
  Forall (Forall (quiet requestId)) windows ->
  Forall (quiet requestId) (hd [] windows).
Proof. destruct 1; simpl; [constructor | assumption]. Qed.

Lemma quiet_tail requestId (windows : list (list Action)) :
  Forall (Forall (quiet requestId)) windows ->
  Forall (Forall (quiet requestId)) (tail windows).
Proof. destruct 1; simpl; [constructor | assumption]. Qed.

Lemma rounds_done timeout passedMs :
  (timeout <= passedMs)%Z -> (rounds timeout passedMs <= 0)%Z.
Proof. unfold rounds. intros H. Z.div_mod_to_equations. lia. Qed.

Lemma rounds_step timeout passedMs :
  (passedMs < timeout)%Z ->
  (rounds timeout passedMs = 1 + rounds timeout (passedMs + 1000)
   /\ 0 <= rounds timeout (passedMs + 1000))%Z.
Proof. unfold rounds. intros H. Z.div_mod_to_equations. lia. Qed.

(** The loop always ends, whatever the other fibres do. *)
Lemma pollLoop_returns fuel windows requestId timeout passedMs g :
  S (Z.to_nat (rounds timeout passedMs)) <= fuel ->
  is_Some (pollLoop fuel windows requestId timeout passedMs g).
Proof.
  revert windows passedMs g.
  induction fuel as [| fuel IH]; intros windows passedMs g Hfuel; [lia |].
  simpl. destruct (Z.ltb_spec passedMs timeout) as [Hlt | Hge]; [| eauto].
  destruct (permissionResponses g !! requestId); [eauto |].
  apply IH. destruct (rounds_step timeout passedMs Hlt). lia.
Qed.

(** With no answer ever, the loop leaves through its condition, after
    [rounds] sleeps of one second, and the pending entry is still
    there. *)
Lemma pollLoop_never_answered fuel windows requestId timeout passedMs g :
  neverAnswered requestId windows g ->
  S (Z.to_nat (rounds timeout passedMs)) <= fuel ->
  exists g',
    pollLoop fuel windows requestId timeout passedMs g = Some (None, g')
    /\ clock g' = (clock g + 1000 * Z.max 0 (rounds timeout passedMs))%Z
    /\ permissionResponses g' !! requestId = None
    /\ (is_Some (pendingPermissionRequests g !! requestId) ->
        is_Some (pendingPermissionRequests g' !! requestId)).
Proof.
  revert windows passedMs g.
  induction fuel as [| fuel IH];
    intros windows passedMs g [Hnone Hquiet] Hfuel; [lia |].
  simpl. destruct (Z.ltb_spec passedMs timeout) as [Hlt | Hge].
  - rewrite Hnone.
    destruct (rounds_step timeout passedMs Hlt) as [Hstep Hpos].
    destruct (IH (tail windows) (passedMs + 1000)%Z
                (sleep 1000 (hd [] windows) g))
      as (g' & Hrun & Hclock & Hresp & Hpend).
    + split.
      * rewrite sleep_quiet_responses; [done | by apply quiet_hd].
      * by apply quiet_tail.
    + lia.
    + exists g'. split; [exact Hrun |]. split; [| split; [exact Hresp |]].
      * rewrite Hclock, sleep_clock. lia.
      * intros Hp. apply Hpend, sleep_quiet_pending;
          [by apply quiet_hd | exact Hp].
  - exists g. pose proof (rounds_done timeout passedMs Hge).
    repeat split; try done. lia.
Qed.

(** Once a response is stored, the next poll returns it at once and the
    rest of the run (later windows) is not looked at. *)
Lemma pollLoop_observes fuel windows requestId timeout passedMs g response :
  (passedMs < timeout)%Z ->
  permissionResponses g !! requestId = Some response ->
  pollLoop (S fuel) windows requestId timeout passedMs g
  = Some (Some response, g).
Proof.
  intros Hlt Hr. simpl.
  destruct (Z.ltb_spec passedMs timeout); [| lia]. by rewrite Hr.
Qed.

(** What a wait returns is what is stored for its request when it
    returns. *)
Lemma pollLoop_returns_stored fuel windows requestId timeout passedMs g
    response g' :
  pollLoop fuel windows requestId timeout passedMs g
  = Some (Some response, g') ->
  permissionResponses g' !! requestId = Some response.
Proof.
  revert windows passedMs g.
  induction fuel as [| fuel IH]; intros windows passedMs g; simpl; [done |].
  destruct (passedMs <? timeout)%Z; [| done].
  destruct (permissionResponses g !! requestId) as [r |] eqn:Hr.
  - intros [= <- <-]. exact Hr.
  - apply IH.
Qed.

Lemma enoughFuel_rounds timeout :
  enoughFuel timeout = S (Z.to_nat (rounds timeout 0)).
Proof. unfold enoughFuel, rounds. by rewrite Z.sub_0_r. Qed.

Lemma waitPermissionResponse_returns fuel windows request options g :
  enoughFuel (timeoutMs options) <= fuel ->
  is_Some (waitPermissionResponse fuel windows request options g).
Proof.
  intros Hfuel. apply pollLoop_returns. by rewrite <- enoughFuel_rounds.
Qed.

Lemma announce_pending request projectId cwd g :
  pendingPermissionRequests (announce request projectId cwd g)
    !! id request = Some request.
Proof. apply lookup_insert_eq. Qed.

(** A wait that nobody answers: it returns [None], the clock has moved
    by whole seconds, and the request is still in the pending map. *)
Lemma wait_never_answered fuel windows request options g :
  neverAnswered (id request) windows g ->
  enoughFuel (timeoutMs options) <= fuel ->
  exists g',
    waitPermissionResponse fuel windows request options g = Some (None, g')
    /\ (clock g' - clock g
        = 1000 * Z.max 0 ((timeoutMs options + 999) / 1000))%Z
    /\ is_Some (pendingPermissionRequests g' !! id request).
Proof.
  intros [Hnone Hquiet] Hfuel. unfold waitPermissionResponse.
  destruct (pollLoop_never_answered fuel windows (id request)
              (timeoutMs options) 0
              (announce request (wProjectId options) (wCwd options) g))
    as (g' & Hrun & Hclock & _ & Hpend).
  - split; [exact Hnone | exact Hquiet].
  - by rewrite <- enoughFuel_rounds.
  - exists g'. split; [exact Hrun |]. split.
    + rewrite Hclock. unfold rounds. simpl clock.
      rewrite Z.sub_0_r. lia.
    + apply Hpend. rewrite announce_pending. eauto.
Qed.

Lemma neverAnswered_empty requestId :
  neverAnswered requestId [] emptyGateway.
Proof. split; [apply lookup_empty | constructor]. Qed.

(** C1, as stated, fails: with [timeoutMs = 200] and no answer the wait
    returns the timeout sentinel only after a full poll interval of
    1000 ms, which is beyond the 400 ms of the claim. *)
Lemma wait_200_exceeds_400 :
  ~ (forall fuel windows request g g',
        neverAnswered (id request) windows g ->
        waitPermissionResponse fuel windows request wait200 g
        = Some (None, g') ->
        (200 <= clock g' - clock g <= 400)%Z).
Proof.
  intros Hclaim.
  specialize (Hclaim 2 [] sampleRequest emptyGateway
                (sleep 1000 []
                   (announce sampleRequest None None emptyGateway))
                (neverAnswered_empty _) eq_refl).
  simpl in Hclaim. lia.
Qed.

(** C1, amended: a wait with [timeoutMs >= 0] that nobody answers
    returns the timeout sentinel after the timeout rounded up to whole
    poll intervals of 1000 ms: never earlier than [timeoutMs], less than
    1000 ms later, and after exactly 1000 ms when [timeoutMs = 200]. *)
Theorem wait_times_out_after_whole_poll_intervals
    fuel windows request options g :
  (0 <= timeoutMs options)%Z ->
  neverAnswered (id request) windows g ->
  enoughFuel (timeoutMs options) <= fuel ->
  exists g',
    waitPermissionResponse fuel windows request options g = Some (None, g')
    /\ (clock g' - clock g = 1000 * ((timeoutMs options + 999) / 1000))%Z
    /\ (timeoutMs options <= clock g' - clock g < timeoutMs options + 1000)%Z
    /\ (timeoutMs options = 200 -> clock g' - clock g = 1000)%Z.
Proof.
  intros Hpos Hnever Hfuel.
  destruct (wait_never_answered fuel windows request options g Hnever Hfuel)
    as (g' & Hrun & Hclock & _).
  exists g'. split; [exact Hrun |].
  assert (Hwaited : (clock g' - clock g
                     = 1000 * ((timeoutMs options + 999) / 1000))%Z).
  { rewrite Hclock. f_equal. apply Z.max_r.
    apply Z.div_pos; lia. }
  split; [exact Hwaited |]. rewrite Hwaited. split.
  - Z.div_mod_to_equations. lia.
  - intros ->. reflexivity.
Qed.

Lemma wait_times_out_after_whole_poll_intervals_witness :
  exists g',
    waitPermissionResponse 2 [] sampleRequest wait200 emptyGateway
    = Some (None, g')
    /\ (clock g' - clock emptyGateway = 1000 * ((200 + 999) / 1000))%Z
    /\ (200 <= clock g' - clock emptyGateway < 200 + 1000)%Z
    /\ (200 = 200 -> clock g' - clock emptyGateway = 1000)%Z.
Proof.
  apply (wait_times_out_after_whole_poll_intervals
           2 [] sampleRequest wait200 emptyGateway).
  - simpl. lia.
  - split; [reflexivity | constructor].
  - vm_compute. lia.
Defined.

(** The answering path does clear the pending entry. *)
Lemma respond_clears_pending response g :
  pendingPermissionRequests (snd (respondToPermissionRequest response g))
    !! permissionRequestId response = None.
Proof. apply lookup_delete_eq. Qed.

(** C2: the code leaves the request in the pending map when the wait
    times out.  A wait of 60000 ms on a fresh gateway that nobody
    answers returns the timeout sentinel, and afterwards the request is
    still recorded as pending (and no response is stored for it). *)
Theorem timed_out_request_stays_pending :
  exists g',
    waitPermissionResponse 61 [] sampleRequest wait60s emptyGateway
    = Some (None, g')
    /\ pendingPermissionRequests g' !! id sampleRequest = Some sampleRequest
    /\ permissionResponses g' !! id sampleRequest = None.
Proof.
  eexists. split; [vm_compute; reflexivity |].
  split; vm_compute; reflexivity.
Qed.

Lemma canUseTool_default ctx fuel ambient windows tool input g :
  permissionMode (cUserConfig ctx) = default ->
  canUseTool ctx fuel ambient windows tool input g
  = match
      waitPermissionResponse fuel windows
        (requestOf ctx ambient tool input) (waitOf ctx) g
    with
    | None => None
    | Some (None, g') => Some (Deny "Permission request timed out", g')
    | Some (Some response, g') =>
        if bool_decide (decision response = allow)
        then Some (Allow input, g')
        else Some (Deny "Permission denied by user", g')
    end.
Proof. intros Hmode. unfold canUseTool. by rewrite Hmode. Qed.

(** C3: in default mode, with fuel for the 60000 ms wait, the callback
    returns a result (it neither fails nor waits for ever); when the
    wait returns no decision the result is the denial with the message
    Permission request timed out; and this is what happens, after
    60000 ms, when nobody answers the request. *)
Theorem canUseTool_timeout_is_denial ctx fuel ambient windows tool input g :
  permissionMode (cUserConfig ctx) = default ->
  enoughFuel 60000 <= fuel ->
  (exists result g',
      canUseTool ctx fuel ambient windows tool input g = Some (result, g'))
  /\ (forall g',
        waitPermissionResponse fuel windows
          (requestOf ctx ambient tool input) (waitOf ctx) g
        = Some (None, g') ->
        canUseTool ctx fuel ambient windows tool input g
        = Some (Deny "Permission request timed out", g'))
  /\ (neverAnswered (ulid ambient) windows g ->
      exists g',
        canUseTool ctx fuel ambient windows tool input g
        = Some (Deny "Permission request timed out", g')
        /\ (clock g' - clock g = 60000)%Z).
Proof.
  intros Hmode Hfuel. rewrite (canUseTool_default _ _ _ _ _ _ _ Hmode).
  split; [| split].
  - destruct (waitPermissionResponse_returns fuel windows
                (requestOf ctx ambient tool input) (waitOf ctx) g Hfuel)
      as [[[response |] g'] ->].
    + destruct (bool_decide (decision response = allow)); eauto.
    + eauto.
  - by intros g' ->.
  - intros Hnever.
    destruct (wait_never_answered fuel windows
                (requestOf ctx ambient tool input) (waitOf ctx) g
                Hnever Hfuel) as (g' & -> & Hclock & _).
    exists g'. split; [reflexivity |]. rewrite Hclock. reflexivity.
Qed.

Lemma canUseTool_timeout_is_denial_witness :
  (exists result g',
      canUseTool (sampleContext default) 61 sampleAmbient [] "Bash" "{}"
        emptyGateway = Some (result, g'))
  /\ (forall g',
        waitPermissionResponse 61 []
          (requestOf (sampleContext default) sampleAmbient "Bash" "{}")
          (waitOf (sampleContext default)) emptyGateway
        = Some (None, g') ->
        canUseTool (sampleContext default) 61 sampleAmbient [] "Bash" "{}"
          emptyGateway
        = Some (Deny "Permission request timed out", g'))
  /\ (neverAnswered (ulid sampleAmbient) [] emptyGateway ->
      exists g',
        canUseTool (sampleContext default) 61 sampleAmbient [] "Bash" "{}"
          emptyGateway
        = Some (Deny "Permission request timed out", g')
        /\ (clock g' - clock emptyGateway = 60000)%Z).
Proof.
  apply (canUseTool_timeout_is_denial
           (sampleContext default) 61 sampleAmbient [] "Bash" "{}"
           emptyGateway).
  - reflexivity.
  - vm_compute. lia.
Defined.

(** C5: when the configured mode is not default the callback answers at
    once: allow with the tool input as given for bypassPermissions and
    acceptEdits, otherwise (plan) deny with the plan-mode message.  The
    gateway is handed back as it was, for any fuel: no request is
    built, the pending map and the emitted events are untouched. *)
Theorem canUseTool_short_circuits ctx fuel ambient windows tool input g :
  permissionMode (cUserConfig ctx) <> default ->
  canUseTool ctx fuel ambient windows tool input g
  = Some (match permissionMode (cUserConfig ctx) with
          | bypassPermissions | acceptEdits => Allow input
          | _ => Deny "Tool execution is disabled in plan mode"
          end, g).
Proof.
  intros Hmode. unfold canUseTool.
  destruct (permissionMode (cUserConfig ctx)); [done | reflexivity ..].
Qed.

Lemma canUseTool_short_circuits_witness :
  canUseTool (sampleContext plan) 0 sampleAmbient [] "Bash" "{}"
    emptyGateway
  = Some (Deny "Tool execution is disabled in plan mode", emptyGateway)
  /\ canUseTool (sampleContext acceptEdits) 0 sampleAmbient [] "Bash" "{}"
       emptyGateway
     = Some (Allow "{}", emptyGateway).
Proof.
  split.
  - apply (canUseTool_short_circuits (sampleContext plan)). discriminate.
  - apply (canUseTool_short_circuits (sampleContext acceptEdits)). discriminate.
Defined.

(** C4, as stated, fails: a second answer to the same request is not
    without effect on what the waiter observes.  When allow and then
    deny are submitted for one request between two polls, the wait
    returns deny; without the second submission it returns allow. *)
Lemma second_respond_changes_observed_resolution :
  ~ (forall fuel request options g first second,
        permissionRequestId first = id request ->
        permissionRequestId second = id request ->
        observed (waitPermissionResponse fuel
                    [[Respond first; Respond second]] request options g)
        = observed (waitPermissionResponse fuel
                      [[Respond first]] request options g)).
Proof.
  intros Hclaim.
  specialize (Hclaim 61 sampleRequest wait60s emptyGateway
                sampleAllow sampleDeny eq_refl eq_refl).
  vm_compute in Hclaim. discriminate Hclaim.
Qed.

(** C4, amended: [respondToPermissionRequest] succeeds on every gateway
    state, so also for an id that is unknown or already resolved; it
    stores the response it is given, replacing an earlier one (the last
    write wins), and clears the pending entry; submitting the same
    response again changes nothing.  A waiter returns at most one
    resolution: at its next poll within the timeout it returns the
    response stored at that moment and stops, whatever is submitted in
    later windows; and whatever a wait returns is the response stored
    for that id when it returns. *)
Theorem respond_never_fails_last_write_wins response g :
  let g1 := snd (respondToPermissionRequest response g) in
  fst (respondToPermissionRequest response g) = Success tt
  /\ permissionResponses g1 !! permissionRequestId response = Some response
  /\ pendingPermissionRequests g1 !! permissionRequestId response = None
  /\ respondToPermissionRequest response g1 = (Success tt, g1)
  /\ (forall fuel windows timeout passedMs,
        (passedMs < timeout)%Z ->
        pollLoop (S fuel) windows (permissionRequestId response)
          timeout passedMs g1
        = Some (Some response, g1))
  /\ (forall fuel windows timeout passedMs g0 seen g',
        pollLoop fuel windows (permissionRequestId response)
          timeout passedMs g0
        = Some (Some seen, g') ->
        permissionResponses g' !! permissionRequestId response = Some seen).
Proof.
  intros g1. subst g1. split; [reflexivity |].
  split; [apply lookup_insert_eq |].
  split; [apply lookup_delete_eq |].
  split; [| split].
  - unfold respondToPermissionRequest. simpl.
    by rewrite insert_insert_eq, delete_delete_eq.
  - intros fuel windows timeout passedMs Hlt.
    apply pollLoop_observes; [exact Hlt | apply lookup_insert_eq].
  - intros fuel windows timeout passedMs g0 seen g'.
    apply pollLoop_returns_stored.
Qed.

End PermissionGatewayProperties.

(** ** Versions, features and the engine wrapper *)

Module ClaudeCodeProperties.

Import ClaudeCodeVersion VersionSpec.

Lemma greaterThanOrEqual_false_iff a b :
  greaterThanOrEqual a b = false <-> lowerThan a b.
Proof.
  unfold greaterThanOrEqual, lowerThan.
  destruct (Nat.ltb_spec (major b) (major a));
    destruct (Nat.ltb_spec (major a) (major b));
    destruct (Nat.ltb_spec (minor b) (minor a));
    destruct (Nat.ltb_spec (minor a) (minor b));
    destruct (Nat.leb_spec (patch b) (patch a));
    split; intros; try discriminate; try reflexivity; lia.
Qed.

Lemma atLeast_false_iff claudeCodeVersion bound :
  ClaudeCode.atLeast claudeCodeVersion bound = false
  <-> below claudeCodeVersion bound.
Proof.
  unfold below. destruct claudeCodeVersion as [v |]; simpl.
  - rewrite greaterThanOrEqual_false_iff. split.
    + intros H. right. eauto.
    + intros [H | (v' & [= <-] & H)]; [discriminate | exact H].
  - split; [by left | reflexivity].
Qed.

Lemma below_82_below_125 claudeCodeVersion :
  below claudeCodeVersion v1_0_82 -> below claudeCodeVersion v1_0_125.
Proof.
  intros [-> | (v & -> & H)]; [by left |].
  right. exists v. split; [reflexivity |].
  unfold lowerThan, v1_0_82, v1_0_125 in *. simpl in *. lia.
Qed.

Section WithVersionParser.

Variable fromCLIString : string -> option ClaudeCodeVersion.

Lemma query_with_config {C : Type} prompt (options : AgentSdk.QueryOptions C)
    host cachedConfig config cache :
  ClaudeCode.Config fromCLIString host cachedConfig
  = (Success config, cache) ->
  ClaudeCode.query fromCLIString prompt options host cachedConfig
  = if ClaudeCode.atLeast (ClaudeCode.claudeCodeVersion config) v1_0_125
    then (Success {| AgentSdk.prompt := prompt;
                     AgentSdk.options :=
                       ClaudeCode.buildOptions options config |},
          cache)
    else (Failure notSupported, cache).
Proof.
  intros Hconfig. unfold ClaudeCode.query. rewrite Hconfig. simpl.
  by destruct (ClaudeCode.atLeast _ _).
Qed.


(** C10: whenever [query] reaches the agent SDK, the options it
    passes list AskUserQuestion first among the disallowed tools,
    followed by the caller's own disallowed tools. *)
Theorem query_disallows_AskUserQuestion {C : Type} prompt
    (options : AgentSdk.QueryOptions C) host cachedConfig call cache :
  ClaudeCode.query fromCLIString prompt options host cachedConfig
  = (Success call, cache) ->
  exists tools,
    AgentSdk.disallowedTools (AgentSdk.options call) = Some tools
    /\ tools = "AskUserQuestion"
                 :: match AgentSdk.disallowedTools options with
                    | Some callerTools => callerTools
                    | None => []
                    end
    /\ In "AskUserQuestion" tools
    /\ (forall callerTools tool,
          AgentSdk.disallowedTools options = Some callerTools ->
          In tool callerTools -> In tool tools).
Proof.
  unfold ClaudeCode.query.
  destruct (ClaudeCode.Config fromCLIString host cachedConfig)
    as [[config | e] cache0]; [| discriminate].
  destruct (negb _); [discriminate |].
  intros [= <- _]. simpl. eexists. split; [reflexivity |].
  split; [reflexivity |]. split; [by left |].
  intros callerTools tool -> Hin. by right.
Qed.

(** Below 1.0.82 no turn starts through [query] at all: such a version is
    also below 1.0.125. *)
Lemma query_fails_below_1_0_82 {C : Type} prompt
    (options : AgentSdk.QueryOptions C) host cachedConfig config cache :
  ClaudeCode.Config fromCLIString host cachedConfig
  = (Success config, cache) ->
  below (ClaudeCode.claudeCodeVersion config) v1_0_82 ->
  ClaudeCode.query fromCLIString prompt options host cachedConfig
  = (Failure notSupported, cache).
Proof.
  intros Hconfig Hbelow. rewrite (query_with_config _ _ _ _ _ _ Hconfig).
  apply below_82_below_125, atLeast_false_iff in Hbelow. by rewrite Hbelow.
Qed.

(** C6, amended: when the detected version is [null] or lower than
    1.0.82, [createCanUseToolRelatedOptions] returns the permission mode
    bypassPermissions and no [canUseTool] callback, whatever the user's
    configured mode, and the options [query] builds for that engine
    carry no callback and the mode bypassPermissions, whatever the
    caller passed; but no tool use runs in such a turn: [query] fails
    with [ClaudeCodeAgentSdkNotSupportedError] before the agent SDK is
    invoked, for every prompt and every options, so nothing reaches the
    gateway. *)
Theorem no_callback_below_1_0_82 ctx host cachedConfig config cache :
  ClaudeCode.Config fromCLIString host cachedConfig
  = (Success config, cache) ->
  below (ClaudeCode.claudeCodeVersion config) v1_0_82 ->
  ClaudeCodePermissionService.createCanUseToolRelatedOptions
    fromCLIString ctx host cachedConfig
  = (Success bypassOnly, cache)
  /\ (forall (C : Type) (options : AgentSdk.QueryOptions C),
        AgentSdk.canUseTool (ClaudeCode.buildOptions options config) = None
        /\ AgentSdk.permissionMode (ClaudeCode.buildOptions options config)
           = Some bypassPermissions)
  /\ (forall (C : Type) prompt (options : AgentSdk.QueryOptions C),
        ClaudeCode.query fromCLIString prompt options host cachedConfig
        = (Failure notSupported, cache)).
Proof.
  intros Hconfig Hbelow. split; [| split].
  - apply atLeast_false_iff in Hbelow.
    unfold ClaudeCodePermissionService.createCanUseToolRelatedOptions.
    rewrite Hconfig. simpl. fold v1_0_82. by rewrite Hbelow.
  - apply atLeast_false_iff in Hbelow.
    intros C options. unfold ClaudeCode.buildOptions. simpl.
    fold v1_0_82. rewrite Hbelow. split; reflexivity.
  - intros C prompt options.
    exact (query_fails_below_1_0_82 prompt options host cachedConfig
             config cache Hconfig Hbelow).
Qed.

End WithVersionParser.

Lemma no_callback_below_1_0_82_witness :
  ClaudeCodePermissionService.createCanUseToolRelatedOptions
    (reads v1_0_60) (GatewaySpec.sampleContext default) sampleHost None
  = (Success bypassOnly, Some (sampleConfig v1_0_60))
  /\ (forall (C : Type) (options : AgentSdk.QueryOptions C),
        AgentSdk.canUseTool
          (ClaudeCode.buildOptions options (sampleConfig v1_0_60)) = None
        /\ AgentSdk.permissionMode
             (ClaudeCode.buildOptions options (sampleConfig v1_0_60))
           = Some bypassPermissions)
  /\ (forall (C : Type) prompt (options : AgentSdk.QueryOptions C),
        ClaudeCode.query (reads v1_0_60) prompt options sampleHost None
        = (Failure notSupported, Some (sampleConfig v1_0_60))).
Proof.
  apply (no_callback_below_1_0_82 (reads v1_0_60)
           (GatewaySpec.sampleContext default) sampleHost None
           (sampleConfig v1_0_60) (Some (sampleConfig v1_0_60))).
  - reflexivity.
  - right. exists v1_0_60. split; [reflexivity |].
    unfold lowerThan. simpl. lia.
Defined.

(** C6, as stated, fails: for a detected version below 1.0.82 the turn
    does not run with bypassPermissions and without callback, it does
    not run.  With the version 1.0.60, [query] hands no call to the
    agent SDK, so no tool use executes. *)
Lemma no_turn_below_1_0_82 :
  ~ (forall parse prompt (options : AgentSdk.QueryOptions unit)
       host cachedConfig config cache,
        ClaudeCode.Config parse host cachedConfig = (Success config, cache) ->
        below (ClaudeCode.claudeCodeVersion config) v1_0_82 ->
        exists call,
          fst (ClaudeCode.query parse prompt options host cachedConfig)
          = Success call
          /\ AgentSdk.canUseTool (AgentSdk.options call) = None
          /\ AgentSdk.permissionMode (AgentSdk.options call)
             = Some bypassPermissions).
Proof.
  intros Hclaim.
  destruct (Hclaim (reads v1_0_60) "fix the build" sampleOptions sampleHost
              None (sampleConfig v1_0_60) (Some (sampleConfig v1_0_60))
              eq_refl) as (call & Hrun & _).
  - right. exists v1_0_60. split; [reflexivity |].
    unfold lowerThan. simpl. lia.
  - vm_compute in Hrun. discriminate Hrun.
Qed.


(** When the configuration is there: [Config] succeeds exactly when a
    configuration is cached, or the executable resolves and running it
    with --version succeeds. *)
Lemma Config_succeeds_iff parse host cachedConfig :
  (exists config cache,
      ClaudeCode.Config parse host cachedConfig = (Success config, cache))
  <-> (is_Some cachedConfig
       \/ exists path output,
            ClaudeCode.resolveClaudeCodePath host = Success path
            /\ ClaudeCode.versionCommand host path = Success output).
Proof.
  unfold ClaudeCode.Config. destruct cachedConfig as [cached |].
  - split; [intros _; left; by eexists | intros _; by do 2 eexists].
  - destruct (ClaudeCode.resolveClaudeCodePath host) as [path | e].
    + destruct (ClaudeCode.versionCommand host path) as [output | e] eqn:Hv.
      * split; [intros _; right; by exists path, output |].
        intros _. by do 2 eexists.
      * split.
        -- intros (config & cache & H). discriminate H.
        -- intros [[c Hc] | (path' & output & [= <-] & Hv')];
             [discriminate | congruence].
    + split.
      * intros (config & cache & H). discriminate H.
      * intros [[c Hc] | (path' & output & Hp & _)]; discriminate.
Qed.


Lemma query_disallows_AskUserQuestion_witness :
  exists tools,
    AgentSdk.disallowedTools
      (ClaudeCode.buildOptions sampleOptions (sampleConfig v2_0_30))
    = Some tools
    /\ tools = ["AskUserQuestion"; "WebSearch"]
    /\ In "AskUserQuestion" tools
    /\ (forall callerTools tool,
          AgentSdk.disallowedTools sampleOptions = Some callerTools ->
          In tool callerTools -> In tool tools).
Proof.
  apply (query_disallows_AskUserQuestion (reads v2_0_30) "fix the build"
           sampleOptions sampleHost None
           {| AgentSdk.prompt := "fix the build";
              AgentSdk.options :=
                ClaudeCode.buildOptions sampleOptions (sampleConfig v2_0_30) |}
           (Some (sampleConfig v2_0_30))).
  reflexivity.
Defined.

End ClaudeCodeProperties.

(** ** The abort route *)

Module RoutesProperties.

(** Whatever [abortTask] does and however it ends, the handler answers
    200 with the message Task aborted and leaves the state as
    [abortTask] left it. *)
Lemma abort_reply_ignores_outcome (World E : Type)
    (abortTask : string -> World -> Exit E unit * World)
    (sessionProcessId : string) (json : Routes.AbortBody) (w : World) :
  Routes.abortRoute World E abortTask sessionProcessId (Some json) w
  = ({| Routes.status := 200;
        Routes.body := Routes.JsonMessage "Task aborted" |},
     snd (abortTask sessionProcessId w)).
Proof.
  unfold Routes.abortRoute, Routes.abortHandler, Routes.runFork.
  destruct (abortTask sessionProcessId w) as [[[] | e] w']; reflexivity.
Qed.

(** The only other answer of the route is the validator's 400, before the
    handler runs. *)
Lemma abort_invalid_body_is_400 (World E : Type)
    (abortTask : string -> World -> Exit E unit * World)
    (sessionProcessId : string) (w : World) :
  Routes.abortRoute World E abortTask sessionProcessId None w
  = ({| Routes.status := 400; Routes.body := Routes.ValidationIssues |}, w).
Proof. reflexivity. Qed.

(** C8, as stated, fails: the abort endpoint does not answer with
    success for every request.  A request whose body has no string
    projectId is answered 400 by the validator, whatever the session
    process identifier. *)
Lemma abort_without_valid_body_is_refused :
  ~ (forall (sessionProcessId : string) (json : option Routes.AbortBody)
       (processes : gmap string LifeCycle.SessionProcessState),
        fst (Routes.abortRoute _ _ (LifeCycle.abortTask (Success tt))
               sessionProcessId json processes)
        = {| Routes.status := 200;
             Routes.body := Routes.JsonMessage "Task aborted" |}).
Proof.
  intros Hclaim. specialize (Hclaim "01J9ZQ4R8N" None ∅).
  vm_compute in Hclaim. discriminate Hclaim.
Qed.

(** C8, amended: for every session process identifier and every request
    body that passes validation, the abort route answers 200 with the
    message Task aborted, for an unknown process and for an already
    terminal one too, and however [abortTask] ends (also for any other
    [abortTask]); aborting an unknown or an already terminal process
    leaves the table of processes as it was, and aborting a process
    that is not terminal marks it aborted. *)
Theorem abort_answers_task_aborted_and_spares_terminal
    (unknown : Exit LifeCycle.LifeCycleError unit)
    (sessionProcessId : string) (json : Routes.AbortBody)
    (processes : gmap string LifeCycle.SessionProcessState) :
  let run :=
    Routes.abortRoute _ _ (LifeCycle.abortTask unknown)
      sessionProcessId (Some json) processes in
  fst run = {| Routes.status := 200;
               Routes.body := Routes.JsonMessage "Task aborted" |}
  /\ (processes !! sessionProcessId = None -> snd run = processes)
  /\ (forall state,
        processes !! sessionProcessId = Some state ->
        snd run
        = if LifeCycle.terminal state then processes
          else <[sessionProcessId := LifeCycle.aborted]> processes)
  /\ (forall (World E : Type)
        (abortTask : string -> World -> Exit E unit * World) (w : World),
        fst (Routes.abortRoute World E abortTask sessionProcessId
               (Some json) w)
        = {| Routes.status := 200;
             Routes.body := Routes.JsonMessage "Task aborted" |}).
Proof.
  intros run. subst run. rewrite abort_reply_ignores_outcome.
  cbn [fst snd]. split; [reflexivity |]. split; [| split].
  - intros Hnone. unfold LifeCycle.abortTask. by rewrite Hnone.
  - intros state Hstate. unfold LifeCycle.abortTask. rewrite Hstate.
    by destruct (LifeCycle.terminal state).
  - intros World E abortTask w. by rewrite abort_reply_ignores_outcome.
Qed.

End RoutesProperties.

(** ** The Telegram sender *)

Module TelegramProperties.

Import TelegramNotificationService TelegramSpec.

(** C9: [sendTelegramMessage] always completes normally.  A rejected
    [fetch], a response that is not ok, and a rejected [response.text()]
    each leave exactly one more console entry and nothing else; a
    response that is ok leaves the console as it was. *)
Theorem sendTelegramMessage_swallows_failures (fetch : Network)
    (botToken chatId text : string)
    (inlineKeyboard : option (list (list Button))) (log : list LogEntry) :
  sendTelegramMessage fetch botToken chatId text inlineKeyboard log
  = (Normal tt,
     match fetch (telegramRequest botToken chatId text inlineKeyboard) with
     | Throw error => (log ++ [failedToSend error])%list
     | Normal response =>
         if ok response then log
         else match bodyText response with
              | Normal errorText =>
                  (log ++ [apiError (status response) errorText])%list
              | Throw error => (log ++ [failedToSend error])%list
              end
     end).
Proof.
  unfold sendTelegramMessage, tryCatch, mbind, Js_bind, bind, await.
  fold (telegramRequest botToken chatId text inlineKeyboard).
  destruct (fetch _) as [response | error]; [| reflexivity].
  destruct (ok response); simpl; [reflexivity |].
  destruct (bodyText response); reflexivity.
Qed.

End TelegramProperties.

(** ** Further properties of the permission gateway *)

Module PermissionGatewayRuns.

Import ClaudeCodePermissionService GatewaySpec GatewayRuns.
Import PermissionGatewayProperties.

Local Open Scope list_scope.

Lemma lastAnswer_snoc requestId window a :
  lastAnswer requestId (window ++ [a])
  = match a with
    | Respond response =>
        if bool_decide (permissionRequestId response = requestId)
        then Some response else lastAnswer requestId window
    | Announce _ _ _ => lastAnswer requestId window
    end.
Proof. unfold lastAnswer. rewrite foldl_snoc. by destruct a. Qed.

(** What is stored for a request after a window has run. *)
Lemma run_responses requestId window g :
  permissionResponses (foldl perform g window) !! requestId
  = match lastAnswer requestId window with
    | Some response => Some response
    | None => permissionResponses g !! requestId
    end.
Proof.
  induction window as [| a window IH] using rev_ind; [reflexivity |].
  rewrite foldl_snoc, lastAnswer_snoc.
  destruct a as [response | request projectId cwd]; simpl.
  - case_bool_decide as Hid.
    + subst requestId. apply lookup_insert_eq.
    + by rewrite lookup_insert_ne.
  - exact IH.
Qed.

Lemma sleep_responses requestId ms window g :
  permissionResponses (sleep ms window g) !! requestId
  = match lastAnswer requestId window with
    | Some response => Some response
    | None => permissionResponses g !! requestId
    end.
Proof. unfold sleep. by rewrite run_responses. Qed.

Lemma sleepThrough_clock windows g :
  clock (sleepThrough windows g) = (clock g + 1000 * Z.of_nat (length windows))%Z.
Proof.
  revert g. induction windows as [| window windows IH]; intros g.
  - simpl. lia.
  - unfold sleepThrough in *. cbn [foldl length]. rewrite IH, sleep_clock. lia.
Qed.

Lemma sleepThrough_quiet_responses requestId windows g :
  Forall (Forall (quiet requestId)) windows ->
  permissionResponses (sleepThrough windows g) !! requestId
  = permissionResponses g !! requestId.
Proof.
  intros Hq. revert g.
  induction Hq as [| window windows Hw _ IH]; intros g; [reflexivity |].
  unfold sleepThrough in *. cbn [foldl].
  by rewrite IH, sleep_quiet_responses.
Qed.

(** Polls that find nothing: the loop sleeps through a quiet prefix of
    the windows as long as the timeout has not passed. *)
Lemma pollLoop_skips_quiet before fuel rest requestId timeout passedMs g :
  permissionResponses g !! requestId = None ->
  Forall (Forall (quiet requestId)) before ->
  (passedMs + 1000 * Z.of_nat (length before) < timeout + 1000)%Z ->
  pollLoop (length before + fuel) (before ++ rest) requestId timeout
    passedMs g
  = pollLoop fuel rest requestId timeout
      (passedMs + 1000 * Z.of_nat (length before))%Z (sleepThrough before g).
Proof.
  revert passedMs g.
  induction before as [| window before IH]; intros passedMs g Hnone Hq Hlt.
  - simpl. f_equal. lia.
  - apply Forall_cons in Hq as [Hw Hq].
    cbn [length Nat.add app pollLoop].
    destruct (Z.ltb_spec passedMs timeout) as [_ | Hge];
      [| cbn [length] in Hlt; lia].
    rewrite Hnone. cbn [hd tail]. rewrite IH.
    + f_equal. cbn [length]. lia.
    + by rewrite sleep_quiet_responses.
    + exact Hq.
    + cbn [length] in Hlt. lia.
Qed.

Lemma pollLoop_more_fuel fuel extra windows requestId timeout passedMs g out :
  pollLoop fuel windows requestId timeout passedMs g = Some out ->
  pollLoop (fuel + extra) windows requestId timeout passedMs g = Some out.
Proof.
  revert windows passedMs g.
  induction fuel as [| fuel IH]; intros windows passedMs g; [done |].
  cbn [Nat.add pollLoop]. destruct (passedMs <? timeout)%Z; [| done].
  destruct (permissionResponses g !! requestId); [done |]. apply IH.
Qed.

(** A wait that is answered during one of its sleeps. *)
Lemma wait_answered
    fuel before window rest request options g response :
  neverAnswered (id request) before g ->
  lastAnswer (id request) window = Some response ->
  (1000 * Z.of_nat (length before + 1) < timeoutMs options)%Z ->
  length before + 2 <= fuel ->
  exists g',
    waitPermissionResponse fuel (before ++ window :: rest) request options g
    = Some (Some response, g')
    /\ (clock g' - clock g = 1000 * Z.of_nat (length before + 1))%Z.
Proof.
  intros [Hnone Hquiet] Hlast Hlt Hfuel.
  set (g0 := announce request (wProjectId options) (wCwd options) g).
  set (g1 := sleep 1000 window (sleepThrough before g0)).
  exists g1. split.
  - unfold waitPermissionResponse. fold g0.
    replace fuel with ((length before + 2) + (fuel - (length before + 2)))
      by lia.
    apply pollLoop_more_fuel.
    rewrite pollLoop_skips_quiet; [| exact Hnone | exact Hquiet | lia].
    cbn [Nat.add pollLoop hd tail].
    destruct (Z.ltb_spec (0 + 1000 * Z.of_nat (length before)) (timeoutMs options));
      [| lia].
    rewrite sleepThrough_quiet_responses by exact Hquiet.
    change (permissionResponses g0 !! id request)
      with (permissionResponses g !! id request).
    rewrite Hnone. fold g1.
    destruct (Z.ltb_spec (0 + 1000 * Z.of_nat (length before) + 1000)
                (timeoutMs options)); [| lia].
    unfold g1 at 1. by rewrite sleep_responses, Hlast.
  - unfold g1. rewrite sleep_clock, sleepThrough_clock. simpl clock. lia.
Qed.

(** X1: an answer given while the waiter sleeps is returned at the next
    poll.  If nothing is stored for the request at the start, the first
    [length before] sleeps bring no answer, the next one brings
    [response] as its last answer to the request, and the poll after it
    still falls before the timeout, then the wait returns [response]
    after exactly [length before + 1] poll intervals, and [response] is
    what the response map holds for the request at that moment. *)
Theorem answer_is_returned_at_next_poll
    fuel before window rest request options g response :
  neverAnswered (id request) before g ->
  lastAnswer (id request) window = Some response ->
  (1000 * Z.of_nat (length before + 1) < timeoutMs options)%Z ->
  length before + 2 <= fuel ->
  exists g',
    waitPermissionResponse fuel (before ++ window :: rest) request options g
    = Some (Some response, g')
    /\ (clock g' - clock g = 1000 * Z.of_nat (length before + 1))%Z
    /\ permissionResponses g' !! id request = Some response.
Proof.
  intros Hnever Hlast Hlt Hfuel.
  destruct (wait_answered fuel before window rest request options g response
              Hnever Hlast Hlt Hfuel) as (g' & Hrun & Hclock).
  exists g'. split; [exact Hrun |]. split; [exact Hclock |].
  unfold waitPermissionResponse in Hrun.
  exact (pollLoop_returns_stored _ _ _ _ _ _ _ _ Hrun).
Qed.

Lemma answer_is_returned_at_next_poll_witness :
  exists g',
    waitPermissionResponse 3
      ([[]] ++ [Respond sampleDeny; Respond sampleAllow] :: [])
      sampleRequest wait60s emptyGateway
    = Some (Some sampleAllow, g')
    /\ (clock g' - clock emptyGateway
        = 1000 * Z.of_nat (length ([[]] : list (list Action)) + 1))%Z
    /\ permissionResponses g' !! id sampleRequest = Some sampleAllow.
Proof.
  apply (answer_is_returned_at_next_poll 3
           ([[]] : list (list Action))
           [Respond sampleDeny; Respond sampleAllow] []
           sampleRequest wait60s emptyGateway sampleAllow).
  - split; [reflexivity | repeat constructor].
  - reflexivity.
  - vm_compute. reflexivity.
  - simpl. lia.
Defined.

(** X2: an answer given during the last poll interval before the
    deadline is not delivered.  If nothing is stored at the start, the
    first [length before] sleeps bring no answer and the sleep after
    them ends at or after the timeout, then the wait returns the timeout
    sentinel whatever that last window holds, and what the window stored
    for the request stays in the response map. *)
Theorem answer_in_last_interval_is_not_delivered
    fuel before window rest request options g :
  neverAnswered (id request) before g ->
  (1000 * Z.of_nat (length before) < timeoutMs options)%Z ->
  (timeoutMs options <= 1000 * Z.of_nat (length before + 1))%Z ->
  length before + 2 <= fuel ->
  exists g',
    waitPermissionResponse fuel (before ++ window :: rest) request options g
    = Some (None, g')
    /\ (clock g' - clock g = 1000 * Z.of_nat (length before + 1))%Z
    /\ permissionResponses g' !! id request = lastAnswer (id request) window.
Proof.
  intros [Hnone Hquiet] Hlt Hge Hfuel.
  set (g0 := announce request (wProjectId options) (wCwd options) g).
  set (g1 := sleep 1000 window (sleepThrough before g0)).
  assert (Hstored : permissionResponses (sleepThrough before g0) !! id request
                    = None).
  { rewrite sleepThrough_quiet_responses by exact Hquiet. exact Hnone. }
  exists g1. split; [| split].
  - unfold waitPermissionResponse. fold g0.
    replace fuel with ((length before + 2) + (fuel - (length before + 2)))
      by lia.
    apply pollLoop_more_fuel.
    rewrite pollLoop_skips_quiet; [| exact Hnone | exact Hquiet | lia].
    cbn [Nat.add pollLoop hd tail].
    destruct (Z.ltb_spec (0 + 1000 * Z.of_nat (length before)) (timeoutMs options));
      [| lia].
    rewrite Hstored. fold g1.
    destruct (Z.ltb_spec (0 + 1000 * Z.of_nat (length before) + 1000)
                (timeoutMs options)); [lia | reflexivity].
  - unfold g1. rewrite sleep_clock, sleepThrough_clock. simpl clock. lia.
  - unfold g1. rewrite sleep_responses, Hstored.
    by destruct (lastAnswer (id request) window).
Qed.

Lemma answer_in_last_interval_is_not_delivered_witness :
  exists g',
    waitPermissionResponse 2 ([] ++ [Respond sampleAllow] :: [])
      sampleRequest wait200 emptyGateway
    = Some (None, g')
    /\ (clock g' - clock emptyGateway
        = 1000 * Z.of_nat (length ([] : list (list Action)) + 1))%Z
    /\ permissionResponses g' !! id sampleRequest
       = lastAnswer (id sampleRequest) [Respond sampleAllow].
Proof.
  apply (answer_in_last_interval_is_not_delivered 2 []
           [Respond sampleAllow] [] sampleRequest wait200 emptyGateway).
  - split; [reflexivity | constructor].
  - vm_compute. reflexivity.
  - vm_compute. discriminate.
  - simpl. lia.
Defined.

(** X3: with a timeout of zero or less the loop body never runs: the wait
    returns the timeout sentinel at once, without sleeping and without
    looking at the responses (one stored beforehand is ignored), yet the
    request has been recorded as pending and announced. *)
Theorem wait_without_time_never_polls fuel windows request options g :
  (timeoutMs options <= 0)%Z ->
  1 <= fuel ->
  waitPermissionResponse fuel windows request options g
  = Some (None, announce request (wProjectId options) (wCwd options) g)
  /\ clock (announce request (wProjectId options) (wCwd options) g) = clock g
  /\ pendingPermissionRequests
       (announce request (wProjectId options) (wCwd options) g)
       !! id request = Some request.
Proof.
  intros Hle Hfuel. split; [| split; [reflexivity | apply announce_pending]].
  unfold waitPermissionResponse.
  destruct fuel as [| fuel]; [lia |]. simpl.
  destruct (Z.ltb_spec 0 (timeoutMs options)); [lia | reflexivity].
Qed.

Lemma wait_without_time_never_polls_witness :
  waitPermissionResponse 1 [] sampleRequest
    {| timeoutMs := 0; wProjectId := None; wCwd := None |}
    (snd (respondToPermissionRequest sampleAllow emptyGateway))
  = Some (None,
          announce sampleRequest None None
            (snd (respondToPermissionRequest sampleAllow emptyGateway))).
Proof.
  apply (wait_without_time_never_polls 1 [] sampleRequest
           {| timeoutMs := 0; wProjectId := None; wCwd := None |}
           (snd (respondToPermissionRequest sampleAllow emptyGateway))).
  - simpl. lia.
  - lia.
Defined.

(** X4: in default mode the callback relays the user's decision.  When
    the request (identified by the fresh [ulid]) is answered during one
    of the first 59 sleeps, the callback returns allow with the tool
    input unchanged for the decision allow, and deny with the message
    Permission denied by user for the decision deny, one poll interval
    after the window of the answer began. *)
Theorem canUseTool_relays_decision
    ctx fuel ambient before window rest tool input g response :
  permissionMode (cUserConfig ctx) = default ->
  neverAnswered (ulid ambient) before g ->
  lastAnswer (ulid ambient) window = Some response ->
  length before < 59 ->
  length before + 2 <= fuel ->
  exists g',
    canUseTool ctx fuel ambient (before ++ window :: rest) tool input g
    = Some (match decision response with
            | allow => Allow input
            | deny => Deny "Permission denied by user"
            end, g')
    /\ (clock g' - clock g = 1000 * Z.of_nat (length before + 1))%Z.
Proof.
  intros Hmode Hnever Hlast Hlen Hfuel.
  destruct (wait_answered fuel before window rest
              (requestOf ctx ambient tool input) (waitOf ctx) g response)
    as (g' & Hrun & Hclock); [exact Hnever | exact Hlast | | exact Hfuel |].
  { simpl. lia. }
  exists g'. split; [| exact Hclock].
  rewrite (canUseTool_default _ _ _ _ _ _ _ Hmode), Hrun.
  by destruct (decision response).
Qed.

Lemma canUseTool_relays_decision_witness :
  exists g',
    canUseTool (sampleContext default) 2 sampleAmbient
      ([] ++ [Respond sampleDeny] :: []) "Bash" "{}" emptyGateway
    = Some (match decision sampleDeny with
            | allow => Allow "{}"
            | deny => Deny "Permission denied by user"
            end, g')
    /\ (clock g' - clock emptyGateway
        = 1000 * Z.of_nat (length ([] : list (list Action)) + 1))%Z.
Proof.
  apply (canUseTool_relays_decision (sampleContext default) 2 sampleAmbient
           [] [Respond sampleDeny] [] "Bash" "{}" emptyGateway sampleDeny).
  - reflexivity.
  - split; [reflexivity | constructor].
  - reflexivity.
  - simpl. lia.
  - simpl. lia.
Defined.

(** X6: answers to different requests do not interfere.  Two responses
    with different request identifiers can be recorded in either order:
    the gateway ends in the same state, and each response is the one
    stored for its request. *)
Theorem responds_to_different_requests_commute first second g :
  permissionRequestId first <> permissionRequestId second ->
  snd (respondToPermissionRequest first
         (snd (respondToPermissionRequest second g)))
  = snd (respondToPermissionRequest second
           (snd (respondToPermissionRequest first g)))
  /\ permissionResponses
       (snd (respondToPermissionRequest first
               (snd (respondToPermissionRequest second g))))
       !! permissionRequestId second = Some second.
Proof.
  intros Hne. split.
  - unfold respondToPermissionRequest. simpl. f_equal.
    + apply delete_delete.
    + by apply insert_insert_ne.
  - simpl. rewrite lookup_insert_ne by done. apply lookup_insert_eq.
Qed.

Lemma responds_to_different_requests_commute_witness :
  snd (respondToPermissionRequest sampleAllow
         (snd (respondToPermissionRequest
                 {| permissionRequestId := "01J9ZQ4R8P"; decision := deny |}
                 emptyGateway)))
  = snd (respondToPermissionRequest
           {| permissionRequestId := "01J9ZQ4R8P"; decision := deny |}
           (snd (respondToPermissionRequest sampleAllow emptyGateway)))
  /\ permissionResponses
       (snd (respondToPermissionRequest sampleAllow
               (snd (respondToPermissionRequest
                       {| permissionRequestId := "01J9ZQ4R8P";
                          decision := deny |}
                       emptyGateway))))
       !! permissionRequestId
            {| permissionRequestId := "01J9ZQ4R8P"; decision := deny |}
     = Some {| permissionRequestId := "01J9ZQ4R8P"; decision := deny |}.
Proof.
  apply (responds_to_different_requests_commute sampleAllow
           {| permissionRequestId := "01J9ZQ4R8P"; decision := deny |}
           emptyGateway).
  discriminate.
Defined.

Lemma perform_emitted g a :
  exists later, emitted (perform g a) = (emitted g ++ later)%list.
Proof.
  destruct a as [response | request projectId cwd]; simpl.
  - exists []. by rewrite app_nil_r.
  - by eexists.
Qed.

Lemma run_emitted window g :
  exists later, emitted (foldl perform g window) = (emitted g ++ later)%list.
Proof.
  revert g. induction window as [| a window IH]; intros g; simpl.
  - exists []. by rewrite app_nil_r.
  - destruct (IH (perform g a)) as [later2 ->].
    destruct (perform_emitted g a) as [later1 ->].
    exists (later1 ++ later2). by rewrite app_assoc.
Qed.

Lemma pollLoop_emitted fuel windows requestId timeout passedMs g out g' :
  pollLoop fuel windows requestId timeout passedMs g = Some (out, g') ->
  exists later, emitted g' = (emitted g ++ later)%list.
Proof.
  revert windows passedMs g.
  induction fuel as [| fuel IH]; intros windows passedMs g; simpl; [done |].
  destruct (passedMs <? timeout)%Z.
  - destruct (permissionResponses g !! requestId).
    + intros [= _ <-]. exists []. by rewrite app_nil_r.
    + intros Hrun. destruct (IH _ _ _ Hrun) as [later2 ->].
      unfold sleep. destruct (run_emitted (hd [] windows)
        {| pendingPermissionRequests := pendingPermissionRequests g;
           permissionResponses := permissionResponses g;
           emitted := emitted g;
           clock := (clock g + 1000)%Z |}) as [later1 ->].
      exists (later1 ++ later2). simpl. by rewrite app_assoc.
  - intros [= _ <-]. exists []. by rewrite app_nil_r.
Qed.

(** X5: the event log only grows, and every wait announces its request
    before its first poll.  Whatever a wait returns and whatever the
    other fibres do meanwhile, the events emitted before the call are
    still there in the same order, followed by the permissionRequested
    event of this request with the project and directory of the call. *)
Theorem wait_announces_and_keeps_events
    fuel windows request options g out g' :
  waitPermissionResponse fuel windows request options g = Some (out, g') ->
  exists later,
    emitted g'
    = (emitted g
         ++ permissionRequested request (wProjectId options) (wCwd options)
         :: later)%list.
Proof.
  unfold waitPermissionResponse. intros Hrun.
  destruct (pollLoop_emitted _ _ _ _ _ _ _ _ Hrun) as [later ->].
  exists later. simpl. by rewrite <- app_assoc.
Qed.

Lemma wait_announces_and_keeps_events_witness :
  exists later,
    emitted (announce sampleRequest None None emptyGateway)
    = (emitted emptyGateway
         ++ permissionRequested sampleRequest (wProjectId wait60s)
              (wCwd wait60s)
         :: later)%list.
Proof.
  apply (wait_announces_and_keeps_events 1 [] sampleRequest wait60s
           (snd (respondToPermissionRequest sampleAllow emptyGateway))
           (Some sampleAllow)
           (announce sampleRequest None None
              (snd (respondToPermissionRequest sampleAllow emptyGateway)))).
  reflexivity.
Defined.

End PermissionGatewayRuns.

(** ** Further properties of the engine wrapper *)

Module ClaudeCodeConfigProperties.

Import ClaudeCodeVersion VersionSpec ClaudeCodeProperties.

(** X7: the cache of [Config], overlapping calls included.  A call that
    finds [cachedConfig] set returns it without asking the machine and
    leaves it.  A call that finds it empty and succeeds returns its own
    detection and stores it, over whatever a call that finished
    meanwhile had stored: the last call to finish decides.  No call
    clears a cache that was set before it or during it.  Without a
    write by another call, this is [Config]. *)
Theorem Config_cache_under_overlap parse host written cachedConfig :
  let run :=
    ClaudeCodeOverlap.ConfigOverlapped parse host written cachedConfig in
  (forall config,
      cachedConfig = Some config -> run = (Success config, Some config))
  /\ (forall config, fst run = Success config -> snd run = Some config)
  /\ (cachedConfig = None ->
      forall config,
        fst run = Success config ->
        exists path output,
          ClaudeCode.resolveClaudeCodePath host = Success path
          /\ ClaudeCode.versionCommand host path = Success output
          /\ config = {| ClaudeCode.claudeCodeExecutablePath := path;
                         ClaudeCode.claudeCodeVersion := parse output |})
  /\ (is_Some cachedConfig \/ is_Some written -> is_Some (snd run))
  /\ ClaudeCodeOverlap.ConfigOverlapped parse host None cachedConfig
     = ClaudeCode.Config parse host cachedConfig.
Proof.
  intros run. subst run.
  unfold ClaudeCodeOverlap.ConfigOverlapped, ClaudeCode.Config.
  destruct cachedConfig as [cached |].
  - split; [by intros config [= <-] |].
    split; [by intros config [= <-] |].
    split; [discriminate |]. split; [intros _; by eexists | reflexivity].
  - destruct (ClaudeCode.resolveClaudeCodePath host) as [path | e].
    + destruct (ClaudeCode.versionCommand host path) as [output | e] eqn:Hv.
      * split; [discriminate |].
        split; [by intros config [= <-] |].
        split; [intros _ config [= <-]; by exists path, output |].
        split; [intros _; by eexists | reflexivity].
      * split; [discriminate |]. split; [discriminate |].
        split; [intros _ config H; discriminate H |].
        split; [| reflexivity].
        intros [[c Hc] | Hw]; [discriminate | exact Hw].
    + split; [discriminate |]. split; [discriminate |].
      split; [intros _ config H; discriminate H |].
      split; [| reflexivity].
      intros [[c Hc] | Hw]; [discriminate | exact Hw].
Qed.

(** Two first calls that overlap: the one that started on a machine
    with 1.0.100 stored its detection first, the one that detects 2.0.30
    finishes last and its configuration is the one that stays. *)
Example Config_last_to_finish_decides :
  ClaudeCodeOverlap.ConfigOverlapped (reads v2_0_30) sampleHost
    (Some (sampleConfig v1_0_100)) None
  = (Success (sampleConfig v2_0_30), Some (sampleConfig v2_0_30)).
Proof. reflexivity. Qed.



Lemma greaterThanOrEqual_true_iff a b :
  greaterThanOrEqual a b = true
  <-> (major b < major a
       \/ (major a = major b
           /\ (minor b < minor a
               \/ (minor a = minor b /\ patch b <= patch a)))).
Proof.
  unfold greaterThanOrEqual.
  destruct (Nat.ltb_spec (major b) (major a));
    destruct (Nat.ltb_spec (major a) (major b));
    destruct (Nat.ltb_spec (minor b) (minor a));
    destruct (Nat.ltb_spec (minor a) (minor b));
    destruct (Nat.leb_spec (patch b) (patch a));
    split; intros; try discriminate; try reflexivity; lia.
Qed.

Lemma greaterThanOrEqual_trans a b c :
  greaterThanOrEqual a b = true ->
  greaterThanOrEqual b c = true ->
  greaterThanOrEqual a c = true.
Proof. rewrite !greaterThanOrEqual_true_iff. lia. Qed.

(** X9: the feature flags are nested.  Whatever the detected version,
    runSkillsDirectly implies sidechainSeparation, which implies agentSdk,
    which implies uuidOnSDKMessage, which implies canUseTool; and
    runSkillsDirectly holds exactly from 2.0.77 on (its test against
    2.1.0 adds nothing). *)
Theorem features_are_nested claudeCodeVersion :
  let f := ClaudeCode.getAvailableFeatures claudeCodeVersion in
  (ClaudeCode.runSkillsDirectly f = true ->
   ClaudeCode.sidechainSeparation f = true)
  /\ (ClaudeCode.sidechainSeparation f = true -> ClaudeCode.agentSdk f = true)
  /\ (ClaudeCode.agentSdk f = true -> ClaudeCode.uuidOnSDKMessage f = true)
  /\ (ClaudeCode.uuidOnSDKMessage f = true -> ClaudeCode.canUseTool f = true)
  /\ ClaudeCode.runSkillsDirectly f
     = ClaudeCode.atLeast claudeCodeVersion
         {| major := 2; minor := 0; patch := 77 |}.
Proof.
  destruct claudeCodeVersion as [v |]; simpl; [| by repeat split].
  rewrite orb_true_iff.
  repeat split.
  - rewrite !greaterThanOrEqual_true_iff. simpl. lia.
  - rewrite !greaterThanOrEqual_true_iff. simpl. lia.
  - rewrite !greaterThanOrEqual_true_iff. simpl. lia.
  - rewrite !greaterThanOrEqual_true_iff. simpl. lia.
  - apply eq_true_iff_eq. rewrite orb_true_iff.
    rewrite !greaterThanOrEqual_true_iff. simpl. lia.
Qed.

(** X10: features are never lost by a newer engine.  If [newer] is
    greater than or equal to [older], every feature available at [older]
    is available at [newer]. *)
Theorem features_grow_with_version older newer :
  greaterThanOrEqual newer older = true ->
  let f := ClaudeCode.getAvailableFeatures (Some older) in
  let f' := ClaudeCode.getAvailableFeatures (Some newer) in
  (ClaudeCode.canUseTool f = true -> ClaudeCode.canUseTool f' = true)
  /\ (ClaudeCode.uuidOnSDKMessage f = true ->
      ClaudeCode.uuidOnSDKMessage f' = true)
  /\ (ClaudeCode.agentSdk f = true -> ClaudeCode.agentSdk f' = true)
  /\ (ClaudeCode.sidechainSeparation f = true ->
      ClaudeCode.sidechainSeparation f' = true)
  /\ (ClaudeCode.runSkillsDirectly f = true ->
      ClaudeCode.runSkillsDirectly f' = true).
Proof.
  intros Hge. simpl.
  repeat split; try (intros H; exact (greaterThanOrEqual_trans _ _ _ Hge H)).
  rewrite !orb_true_iff.
  intros [H | H]; [left | right];
    exact (greaterThanOrEqual_trans _ _ _ Hge H).
Qed.

Lemma features_grow_with_version_witness :
  (ClaudeCode.canUseTool (ClaudeCode.getAvailableFeatures (Some v1_0_100))
   = true ->
   ClaudeCode.canUseTool (ClaudeCode.getAvailableFeatures (Some v2_0_30))
   = true)
  /\ (ClaudeCode.uuidOnSDKMessage
        (ClaudeCode.getAvailableFeatures (Some v1_0_100)) = true ->
      ClaudeCode.uuidOnSDKMessage
        (ClaudeCode.getAvailableFeatures (Some v2_0_30)) = true)
  /\ (ClaudeCode.agentSdk (ClaudeCode.getAvailableFeatures (Some v1_0_100))
      = true ->
      ClaudeCode.agentSdk (ClaudeCode.getAvailableFeatures (Some v2_0_30))
      = true)
  /\ (ClaudeCode.sidechainSeparation
        (ClaudeCode.getAvailableFeatures (Some v1_0_100)) = true ->
      ClaudeCode.sidechainSeparation
        (ClaudeCode.getAvailableFeatures (Some v2_0_30)) = true)
  /\ (ClaudeCode.runSkillsDirectly
        (ClaudeCode.getAvailableFeatures (Some v1_0_100)) = true ->
      ClaudeCode.runSkillsDirectly
        (ClaudeCode.getAvailableFeatures (Some v2_0_30)) = true).
Proof.
  apply (features_grow_with_version v1_0_100 v2_0_30). reflexivity.
Defined.

End ClaudeCodeConfigProperties.

Module QueryProperties.

Import ClaudeCodeVersion VersionSpec ClaudeCodeProperties.
Import ClaudeCodeConfigProperties.

Lemma atLeast_125_82 claudeCodeVersion :
  ClaudeCode.atLeast claudeCodeVersion v1_0_125 = true ->
  ClaudeCode.atLeast claudeCodeVersion v1_0_82 = true.
Proof.
  destruct claudeCodeVersion as [v |]; simpl; [| done].
  rewrite !greaterThanOrEqual_true_iff. simpl. lia.
Qed.

Lemma query_success_inv {C : Type} parse prompt
    (options : AgentSdk.QueryOptions C) host cachedConfig call cache :
  ClaudeCode.query parse prompt options host cachedConfig
  = (Success call, cache) ->
  exists config,
    ClaudeCode.Config parse host cachedConfig = (Success config, cache)
    /\ ClaudeCode.atLeast (ClaudeCode.claudeCodeVersion config) v1_0_125
       = true
    /\ call = {| AgentSdk.prompt := prompt;
                 AgentSdk.options := ClaudeCode.buildOptions options config |}.
Proof.
  intros Hrun.
  destruct (ClaudeCode.Config parse host cachedConfig)
    as [[config | e] cache0] eqn:Hconfig.
  - rewrite (query_with_config parse _ _ _ _ _ _ Hconfig) in Hrun.
    destruct (ClaudeCode.atLeast _ v1_0_125) eqn:Hge; [| discriminate].
    injection Hrun as <- <-. by exists config.
  - unfold ClaudeCode.query in Hrun. rewrite Hconfig in Hrun. discriminate.
Qed.

(** X11: whenever [query] reaches the agent SDK, the caller's
    [canUseTool] callback and permission mode are passed on unchanged.
    The fallback to bypassPermissions is never sent to the SDK: an engine
    too old for [canUseTool] is also too old for the agent SDK, and
    [query] fails for it. *)
Theorem query_forwards_permission_settings {C : Type} parse prompt
    (options : AgentSdk.QueryOptions C) host cachedConfig call cache :
  ClaudeCode.query parse prompt options host cachedConfig
  = (Success call, cache) ->
  AgentSdk.canUseTool (AgentSdk.options call) = AgentSdk.canUseTool options
  /\ AgentSdk.permissionMode (AgentSdk.options call)
     = AgentSdk.permissionMode options.
Proof.
  intros Hrun.
  destruct (query_success_inv _ _ _ _ _ _ _ Hrun) as (config & _ & Hge & ->).
  apply atLeast_125_82 in Hge. unfold v1_0_82 in Hge.
  unfold ClaudeCode.buildOptions. simpl. by rewrite Hge.
Qed.

Lemma query_forwards_permission_settings_witness :
  AgentSdk.canUseTool
    (ClaudeCode.buildOptions sampleOptions (sampleConfig v2_0_30))
  = AgentSdk.canUseTool sampleOptions
  /\ AgentSdk.permissionMode
       (ClaudeCode.buildOptions sampleOptions (sampleConfig v2_0_30))
     = AgentSdk.permissionMode sampleOptions.
Proof.
  apply (query_forwards_permission_settings (reads v2_0_30) "fix the build"
           sampleOptions sampleHost None
           {| AgentSdk.prompt := "fix the build";
              AgentSdk.options :=
                ClaudeCode.buildOptions sampleOptions (sampleConfig v2_0_30) |}
           (Some (sampleConfig v2_0_30))).
  reflexivity.
Defined.

(** X12: what [query] overrides and what it drops.  In every call that
    reaches the agent SDK the executable is the one of the detected
    configuration, whatever path the caller put in the options; the
    caller's hooks are not passed on; and the prompt, the system prompt,
    the setting sources and the remaining options arrive as given. *)
Theorem query_overrides_executable_and_drops_hooks {C : Type} parse prompt
    (options : AgentSdk.QueryOptions C) host cachedConfig call cache :
  ClaudeCode.query parse prompt options host cachedConfig
  = (Success call, cache) ->
  (exists config,
      cache = Some config
      /\ AgentSdk.pathToClaudeCodeExecutable (AgentSdk.options call)
         = Some (ClaudeCode.claudeCodeExecutablePath config))
  /\ AgentSdk.hooks (AgentSdk.options call) = None
  /\ AgentSdk.prompt call = prompt
  /\ AgentSdk.systemPrompt (AgentSdk.options call)
     = AgentSdk.systemPrompt options
  /\ AgentSdk.settingSources (AgentSdk.options call)
     = AgentSdk.settingSources options
  /\ AgentSdk.others (AgentSdk.options call) = AgentSdk.others options.
Proof.
  intros Hrun.
  destruct (query_success_inv _ _ _ _ _ _ _ Hrun)
    as (config & Hconfig & _ & ->).
  split; [| by repeat split].
  exists config. split; [| reflexivity].
  unfold ClaudeCode.Config in Hconfig.
  destruct cachedConfig as [cached |]; [by injection Hconfig as -> <- |].
  destruct (ClaudeCode.resolveClaudeCodePath host); [| discriminate].
  destruct (ClaudeCode.versionCommand host _); [| discriminate].
  by injection Hconfig as -> <-.
Qed.

Lemma query_overrides_executable_and_drops_hooks_witness :
  AgentSdk.hooks
    (ClaudeCode.buildOptions
       {| AgentSdk.canUseTool := Some tt;
          AgentSdk.permissionMode := Some default;
          AgentSdk.hooks := Some "PreToolUse";
          AgentSdk.systemPrompt := None;
          AgentSdk.settingSources := None;
          AgentSdk.pathToClaudeCodeExecutable := Some "/opt/other/claude";
          AgentSdk.disallowedTools := None;
          AgentSdk.others := [] |}
       (sampleConfig v2_0_30))
  = None.
Proof.
  apply (query_overrides_executable_and_drops_hooks (reads v2_0_30)
           "fix the build"
           {| AgentSdk.canUseTool := Some tt;
              AgentSdk.permissionMode := Some default;
              AgentSdk.hooks := Some "PreToolUse";
              AgentSdk.systemPrompt := None;
              AgentSdk.settingSources := None;
              AgentSdk.pathToClaudeCodeExecutable := Some "/opt/other/claude";
              AgentSdk.disallowedTools := None;
              AgentSdk.others := [] |}
           sampleHost None
           {| AgentSdk.prompt := "fix the build";
              AgentSdk.options :=
                ClaudeCode.buildOptions
                  {| AgentSdk.canUseTool := Some tt;
                     AgentSdk.permissionMode := Some default;
                     AgentSdk.hooks := Some "PreToolUse";
                     AgentSdk.systemPrompt := None;
                     AgentSdk.settingSources := None;
                     AgentSdk.pathToClaudeCodeExecutable :=
                       Some "/opt/other/claude";
                     AgentSdk.disallowedTools := None;
                     AgentSdk.others := [] |}
                  (sampleConfig v2_0_30) |}
           (Some (sampleConfig v2_0_30))).
  reflexivity.
Defined.

(** X13: an unsupported engine stays unsupported while its configuration
    is cached.  Every [query] that starts while [cachedConfig] holds a
    configuration whose version is [null] or lower than 1.0.125 fails
    with [ClaudeCodeAgentSdkNotSupportedError] and leaves the cache,
    whatever prompt and options it is given and whatever the machine
    would now answer: the version is read from the cache.  The cached
    configuration changes only through a call of [Config] that had
    started before the cache was set: when it finishes, its own
    detection replaces the cached one. *)
Theorem query_unsupported_while_cached {C : Type} parse prompt
    (options : AgentSdk.QueryOptions C) host config :
  below (ClaudeCode.claudeCodeVersion config) v1_0_125 ->
  ClaudeCode.query parse prompt options host (Some config)
  = (Failure notSupported, Some config)
  /\ (forall parse' host' path output,
        ClaudeCode.resolveClaudeCodePath host' = Success path ->
        ClaudeCode.versionCommand host' path = Success output ->
        ClaudeCodeOverlap.ConfigOverlapped parse' host' (Some config) None
        = (Success {| ClaudeCode.claudeCodeExecutablePath := path;
                      ClaudeCode.claudeCodeVersion := parse' output |},
           Some {| ClaudeCode.claudeCodeExecutablePath := path;
                   ClaudeCode.claudeCodeVersion := parse' output |})).
Proof.
  intros Hbelow. split.
  - rewrite (query_with_config parse prompt options host (Some config)
               config (Some config) eq_refl).
    apply atLeast_false_iff in Hbelow. by rewrite Hbelow.
  - intros parse' host' path output Hpath Hversion.
    unfold ClaudeCodeOverlap.ConfigOverlapped. by rewrite Hpath, Hversion.
Qed.

Lemma query_unsupported_while_cached_witness :
  ClaudeCode.query (reads v2_0_30) "try again" sampleOptions sampleHost
    (Some (sampleConfig v1_0_100))
  = (Failure notSupported, Some (sampleConfig v1_0_100))
  /\ (forall parse' host' path output,
        ClaudeCode.resolveClaudeCodePath host' = Success path ->
        ClaudeCode.versionCommand host' path = Success output ->
        ClaudeCodeOverlap.ConfigOverlapped parse' host'
          (Some (sampleConfig v1_0_100)) None
        = (Success {| ClaudeCode.claudeCodeExecutablePath := path;
                      ClaudeCode.claudeCodeVersion := parse' output |},
           Some {| ClaudeCode.claudeCodeExecutablePath := path;
                   ClaudeCode.claudeCodeVersion := parse' output |})).
Proof.
  apply (query_unsupported_while_cached (reads v2_0_30) "try again"
           sampleOptions sampleHost (sampleConfig v1_0_100)).
  right. exists v1_0_100. split; [reflexivity |].
  unfold lowerThan. simpl. lia.
Defined.

(** X14: for an engine that has the [canUseTool] feature (1.0.82 or
    later), [createCanUseToolRelatedOptions] returns the callback bound
    to the turn and the permission mode of the user's configuration; and
    it fails exactly when [Config] fails, with the same error. *)
Theorem callback_from_1_0_82 parse ctx host cachedConfig :
  (forall e cache,
      ClaudeCode.Config parse host cachedConfig = (Failure e, cache) ->
      ClaudeCodePermissionService.createCanUseToolRelatedOptions
        parse ctx host cachedConfig
      = (Failure e, cache))
  /\ (forall config cache,
        ClaudeCode.Config parse host cachedConfig = (Success config, cache) ->
        ClaudeCode.atLeast (ClaudeCode.claudeCodeVersion config) v1_0_82
        = true ->
        ClaudeCodePermissionService.createCanUseToolRelatedOptions
          parse ctx host cachedConfig
        = (Success
             {| ClaudeCodePermissionService.optCanUseTool :=
                  Some (ClaudeCodePermissionService.canUseTool ctx);
                ClaudeCodePermissionService.optPermissionMode :=
                  permissionMode
                    (ClaudeCodePermissionService.cUserConfig ctx) |},
           cache)).
Proof.
  unfold ClaudeCodePermissionService.createCanUseToolRelatedOptions.
  split.
  - intros e cache ->. reflexivity.
  - intros config cache -> Hge. simpl. fold v1_0_82. by rewrite Hge.
Qed.

End QueryProperties.

(** ** The lookup of the executable *)

Module ClaudeCodePathProperties.

Import ClaudeCodePath.

Local Open Scope list_scope.

Section WithPlatform.

Variables (npxCache localNodeModulesBin : string -> bool).
Variable pathResolve : string -> string.
Variable trim : string -> string.

Abbreviation priority := (claudeCodePathPriority npxCache localNodeModulesBin).
Abbreviation compare := (byPriority npxCache localNodeModulesBin).

Lemma byPriority_pos a b :
  (0 <? compare a b)%Z = true <-> priority a < priority b.
Proof.
  unfold byPriority.
  destruct (Nat.ltb_spec (priority a) (priority b)) as [Hlt | Hge].
  - split; [done | reflexivity].
  - destruct (Nat.ltb_spec (priority b) (priority a)); split;
      first [discriminate | lia].
Qed.

(** The head of the sorted list is the leftmost element of the greatest
    priority value. *)
Lemma toSorted_head l :
  match toSorted compare l with
  | [] => l = []
  | p :: _ =>
      exists l1 l2,
        l = l1 ++ p :: l2
        /\ Forall (fun q => priority q < priority p) l1
        /\ Forall (fun q => priority q <= priority p) l2
  end.
Proof.
  induction l as [| x l IH]; [reflexivity |].
  unfold toSorted in *. cbn [foldr].
  destruct (foldr (insertSorted compare) [] l) as [| p rest].
  - subst l. simpl. exists [], []. by repeat split.
  - destruct IH as (l1 & l2 & -> & Hl1 & Hl2). cbn [insertSorted].
    destruct (0 <? compare x p)%Z eqn:Hcmp.
    + apply byPriority_pos in Hcmp.
      exists (x :: l1), l2. split; [reflexivity |].
      split; [by constructor | exact Hl2].
    + assert (Hge : priority p <= priority x).
      { destruct (Nat.le_gt_cases (priority p) (priority x)) as [H | H];
          [exact H |].
        apply byPriority_pos in H. congruence. }
      exists [], (l1 ++ p :: l2). split; [reflexivity |].
      split; [constructor |].
      apply Forall_app. split.
      * eapply Forall_impl; [exact Hl1 |]. simpl. lia.
      * constructor; [exact Hge |].
        eapply Forall_impl; [exact Hl2 |]. simpl. lia.
Qed.

Lemma uniqFrom_covers seen l q :
  q ∈ l -> q ∈ seen \/ q ∈ uniqFrom seen l.
Proof.
  revert seen. induction l as [| x l IH]; intros seen Hq.
  - by apply elem_of_nil in Hq.
  - cbn [uniqFrom]. apply elem_of_cons in Hq as [-> | Hq].
    + destruct (decide (x ∈ seen)); [by left | right; by left].
    + destruct (decide (x ∈ seen)); [by apply IH |].
      destruct (IH ({[x]} ∪ seen) Hq) as [Hs | Hu].
      * apply elem_of_union in Hs as [Hx | Hs]; [| by left].
        apply elem_of_singleton in Hx as ->. right. by left.
      * right. by right.
Qed.

Lemma uniqFrom_sub seen l q : q ∈ uniqFrom seen l -> q ∈ l.
Proof.
  revert seen. induction l as [| x l IH]; intros seen; cbn [uniqFrom].
  - done.
  - destruct (decide (x ∈ seen)).
    + intros H. right. by eapply IH.
    + intros [-> | H]%elem_of_cons; [by left | right; by eapply IH].
Qed.

(** Where an element of the de-duplicated list stands in the list it
    came from. *)
Lemma uniqFrom_split seen l u1 p u2 :
  uniqFrom seen l = u1 ++ p :: u2 ->
  exists l1 l2,
    l = l1 ++ p :: l2
    /\ Forall (fun q => q ∈ seen \/ q ∈ u1) l1
    /\ Forall (fun q => q ∈ seen \/ q ∈ u1 \/ q = p \/ q ∈ u2) l2.
Proof.
  revert seen u1. induction l as [| x l IH]; intros seen u1; cbn [uniqFrom].
  - by destruct u1.
  - destruct (decide (x ∈ seen)) as [Hin | Hnin].
    + intros H. destruct (IH _ _ H) as (l1 & l2 & -> & Hl1 & Hl2).
      exists (x :: l1), l2. split; [reflexivity |].
      split; [constructor; [by left | exact Hl1] | exact Hl2].
    + destruct u1 as [| y u1]; cbn [app].
      * intros [= -> <-]. exists [], l. split; [reflexivity |].
        split; [constructor |].
        apply Forall_forall. intros q Hq.
        destruct (uniqFrom_covers ({[p]} ∪ seen) l q Hq) as [Hs | Hu].
        -- apply elem_of_union in Hs as [Hx | Hs]; [| by left].
           apply elem_of_singleton in Hx. right. right. by left.
        -- right. right. by right.
      * intros [= <- H]. destruct (IH _ _ H) as (l1 & l2 & -> & Hl1 & Hl2).
        exists (x :: l1), l2. split; [reflexivity |]. split.
        -- constructor; [right; by left |].
           eapply Forall_impl; [exact Hl1 |]. simpl.
           intros q [Hs | Hu].
           ++ apply elem_of_union in Hs as [Hx | Hs]; [| by left].
              apply elem_of_singleton in Hx as ->. right. by left.
           ++ right. by right.
        -- eapply Forall_impl; [exact Hl2 |]. simpl.
           intros q [Hs | [Hu | [Hp | Hu]]].
           ++ apply elem_of_union in Hs as [Hx | Hs]; [| by left].
              apply elem_of_singleton in Hx as ->. right. left. by left.
           ++ right. left. by right.
           ++ right. right. by left.
           ++ right. right. by right.
Qed.

Lemma uniq_nil l : uniq l = [] -> l = [].
Proof.
  destruct l as [| x l]; [done |]. unfold uniq. cbn [uniqFrom].
  destruct (decide (x ∈ (∅ : gset string))) as [Hin | _]; [| done].
  by apply elem_of_empty in Hin.
Qed.

Lemma resolve_from_which lookup :
  executable lookup = None ->
  resolveClaudeCodePath npxCache localNodeModulesBin pathResolve trim lookup
  = match toSorted compare (uniq (candidates trim lookup)) with
    | [] =>
        Failure
          (ClaudeCode.ClaudeCodePathNotFoundError
             "Claude Code CLI not found in any location")
    | resolved :: _ => Success resolved
    end.
Proof.
  intros Hexe. unfold resolveClaudeCodePath, candidates. rewrite Hexe.
  by destruct (whichOutput lookup).
Qed.

(** X15: the lookup fails exactly when no executable is configured and
    [which] offers no path (the command failed, or every line of its
    output is blank after trimming); the error is then
    [ClaudeCodePathNotFoundError].  A configured executable, even the
    empty string, is resolved without looking at [which]. *)
Theorem resolve_fails_iff_nothing_offered lookup :
  ((exists e,
       resolveClaudeCodePath npxCache localNodeModulesBin pathResolve trim
         lookup = Failure e)
   <-> executable lookup = None /\ candidates trim lookup = [])
  /\ (forall e,
        resolveClaudeCodePath npxCache localNodeModulesBin pathResolve trim
          lookup = Failure e ->
        e = ClaudeCode.ClaudeCodePathNotFoundError
              "Claude Code CLI not found in any location")
  /\ (forall specified,
        executable lookup = Some specified ->
        resolveClaudeCodePath npxCache localNodeModulesBin pathResolve trim
          lookup = Success (pathResolve specified)).
Proof.
  destruct (executable lookup) as [specified |] eqn:Hexe.
  - unfold resolveClaudeCodePath. rewrite Hexe. split; [| split].
    + split; [intros [e H]; discriminate | intros [H _]; discriminate].
    + discriminate.
    + by intros ? [= <-].
  - rewrite (resolve_from_which lookup Hexe).
    pose proof (toSorted_head (uniq (candidates trim lookup))) as Hhead.
    destruct (toSorted compare (uniq (candidates trim lookup)))
      as [| p rest].
    + apply uniq_nil in Hhead. split; [| split].
      * split; [done | intros _; by eexists].
      * by intros e [= <-].
      * discriminate.
    + destruct Hhead as (l1 & l2 & Hsplit & _). split; [| split].
      * split; [intros [e H]; discriminate |].
        intros [_ Hnil]. rewrite Hnil in Hsplit. by destruct l1.
      * discriminate.
      * discriminate.
Qed.

(** X16: which offered path wins.  When no executable is configured and
    the lookup succeeds, the result is one of the offered paths, it is
    not blank, every path offered before it has a strictly smaller
    priority value and none offered after it has a greater one: the
    first path outside the npx cache and outside the local
    node_modules/.bin if there is one, else the first one in the local
    node_modules/.bin, else the first of all. *)
Theorem resolve_picks_first_of_greatest_priority lookup resolved :
  executable lookup = None ->
  resolveClaudeCodePath npxCache localNodeModulesBin pathResolve trim lookup
  = Success resolved ->
  resolved <> EmptyString
  /\ exists earlier later,
       candidates trim lookup = earlier ++ resolved :: later
       /\ Forall (fun q => priority q < priority resolved) earlier
       /\ Forall (fun q => priority q <= priority resolved) later.
Proof.
  intros Hexe. rewrite (resolve_from_which lookup Hexe).
  pose proof (toSorted_head (uniq (candidates trim lookup))) as Hhead.
  destruct (toSorted compare (uniq (candidates trim lookup))) as [| p rest];
    [discriminate |].
  intros [= ->]. destruct Hhead as (u1 & u2 & Hu & Hu1 & Hu2).
  destruct (uniqFrom_split ∅ _ _ _ _ Hu) as (l1 & l2 & Hl & Hl1 & Hl2).
  assert (Hin : resolved ∈ candidates trim lookup).
  { rewrite Hl. apply elem_of_app. right. by left. }
  split.
  - unfold candidates in Hin. destruct (whichOutput lookup); [| by apply elem_of_nil in Hin].
    by apply list_elem_of_filter in Hin as [Hne _].
  - exists l1, l2. split; [exact Hl |]. split.
    + apply Forall_forall. intros q Hq.
      rewrite Forall_forall in Hl1. destruct (Hl1 q Hq) as [Hs | Hq1].
      * by apply elem_of_empty in Hs.
      * rewrite Forall_forall in Hu1. by apply Hu1.
    + apply Forall_forall. intros q Hq.
      rewrite Forall_forall in Hl2.
      destruct (Hl2 q Hq) as [Hs | [Hq1 | [-> | Hq2]]].
      * by apply elem_of_empty in Hs.
      * rewrite Forall_forall in Hu1. apply Nat.lt_le_incl. by apply Hu1.
      * lia.
      * rewrite Forall_forall in Hu2. by apply Hu2.
Qed.

End WithPlatform.

Lemma resolve_picks_first_of_greatest_priority_witness :
  "/usr/local/bin/claude" <> EmptyString
  /\ exists earlier later,
       candidates sampleTrim sampleLookup
       = earlier ++ "/usr/local/bin/claude" :: later
       /\ Forall
            (fun q =>
               claudeCodePathPriority sampleNpxCache sampleLocalBin q
               < claudeCodePathPriority sampleNpxCache sampleLocalBin
                   "/usr/local/bin/claude")
            earlier
       /\ Forall
            (fun q =>
               claudeCodePathPriority sampleNpxCache sampleLocalBin q
               <= claudeCodePathPriority sampleNpxCache sampleLocalBin
                    "/usr/local/bin/claude")
            later.
Proof.
  apply (resolve_picks_first_of_greatest_priority sampleNpxCache
           sampleLocalBin (fun p => p) sampleTrim sampleLookup
           "/usr/local/bin/claude").
  - reflexivity.
  - vm_compute. reflexivity.
Defined.

End ClaudeCodePathProperties.

(** ** Strings: splitting, replacing, joining *)

Module JsStringFacts.

Import JsString.

Lemma append_cons c a b : String c a +:+ b = String c (a +:+ b).
Proof. reflexivity. Qed.

Lemma append_nil b : EmptyString +:+ b = b.
Proof. reflexivity. Qed.

Lemma join_cons sep part next parts :
  join sep (part :: next :: parts)
  = part +:+ sep +:+ join sep (next :: parts).
Proof. reflexivity. Qed.

Lemma occurs_app c a b : occurs c (a +:+ b) = occurs c a || occurs c b.
Proof.
  induction a as [| x a IH]; [reflexivity |].
  rewrite append_cons. simpl. by rewrite IH, orb_assoc.
Qed.

Lemma splitOn_sep sep s :
  splitOn sep (String sep s) = EmptyString :: splitOn sep s.
Proof. simpl. by rewrite Ascii.eqb_refl. Qed.

Lemma splitOn_not_nil sep s : splitOn sep s <> [].
Proof.
  destruct s as [| c s]; simpl; [done |].
  destruct (Ascii.eqb c sep); [done |]. by destruct (splitOn sep s).
Qed.

Lemma splitOn_other sep c s :
  Ascii.eqb c sep = false ->
  exists piece pieces,
    splitOn sep s = piece :: pieces
    /\ splitOn sep (String c s) = String c piece :: pieces.
Proof.
  intros Hc. simpl. rewrite Hc.
  destruct (splitOn sep s) as [| piece pieces] eqn:Hs.
  - by apply splitOn_not_nil in Hs.
  - by exists piece, pieces.
Qed.

(** No piece of a split holds the separator. *)
Lemma splitOn_pieces_without_sep sep s :
  Forall (fun piece => occurs sep piece = false) (splitOn sep s).
Proof.
  induction s as [| c s IH]; [by repeat constructor |].
  destruct (Ascii.eqb c sep) eqn:Hc.
  - apply Ascii.eqb_eq in Hc as ->. rewrite splitOn_sep. by constructor.
  - destruct (splitOn_other sep c s Hc) as (piece & pieces & Hs & ->).
    rewrite Hs in IH. apply Forall_cons in IH as [Hp Hps].
    constructor; [| exact Hps]. simpl. by rewrite Hc.
Qed.

(** A character absent from the string is absent from its pieces. *)
Lemma splitOn_pieces_without x sep s :
  occurs x s = false ->
  Forall (fun piece => occurs x piece = false) (splitOn sep s).
Proof.
  induction s as [| c s IH]; [by repeat constructor |].
  simpl occurs. intros [Hc Hs]%orb_false_iff. specialize (IH Hs).
  destruct (Ascii.eqb c sep) eqn:Hsep.
  - apply Ascii.eqb_eq in Hsep as ->. rewrite splitOn_sep. by constructor.
  - destruct (splitOn_other sep c s Hsep) as (piece & pieces & Hsplit & ->).
    rewrite Hsplit in IH. apply Forall_cons in IH as [Hp Hps].
    constructor; [| exact Hps]. simpl. by rewrite Hc.
Qed.

Lemma splitOn_without_sep sep s :
  occurs sep s = false -> splitOn sep s = [s].
Proof.
  induction s as [| c s IH]; [reflexivity |].
  simpl occurs. intros [Hc Hs]%orb_false_iff.
  simpl. rewrite Hc, (IH Hs). reflexivity.
Qed.

Lemma splitOn_app sep a b :
  occurs sep a = false ->
  splitOn sep (a +:+ String sep b) = a :: splitOn sep b.
Proof.
  induction a as [| c a IH].
  - intros _. rewrite append_nil. apply splitOn_sep.
  - simpl occurs. intros [Hc Ha]%orb_false_iff.
    rewrite append_cons. cbn [splitOn]. by rewrite Hc, (IH Ha).
Qed.

(** Splitting undoes joining, for pieces that do not hold the
    separator. *)
Lemma splitOn_join sep pieces :
  pieces <> [] ->
  Forall (fun piece => occurs sep piece = false) pieces ->
  splitOn sep (join (String sep EmptyString) pieces) = pieces.
Proof.
  intros Hne Hfree. induction Hfree as [| piece pieces Hp Hps IH]; [done |].
  destruct pieces as [| next pieces].
  - simpl. by apply splitOn_without_sep.
  - rewrite join_cons, append_cons, append_nil.
    rewrite splitOn_app by exact Hp. by rewrite IH.
Qed.

Lemma replaceChar_removes c d s :
  Ascii.eqb d c = false -> occurs c (replaceChar c d s) = false.
Proof.
  intros Hd. induction s as [| x s IH]; [reflexivity |].
  simpl. rewrite IH, orb_false_r.
  destruct (Ascii.eqb x c) eqn:Hx; [exact Hd | exact Hx].
Qed.

Lemma replaceChar_without c d s :
  occurs c s = false -> replaceChar c d s = s.
Proof.
  induction s as [| x s IH]; [reflexivity |].
  simpl. intros [Hx Hs]%orb_false_iff. by rewrite Hx, (IH Hs).
Qed.

Lemma replaceChar_keeps_out x c d s :
  Ascii.eqb d x = false ->
  occurs x s = false -> occurs x (replaceChar c d s) = false.
Proof.
  intros Hd. induction s as [| y s IH]; [reflexivity |].
  simpl. intros [Hy Hs]%orb_false_iff. rewrite (IH Hs), orb_false_r.
  by destruct (Ascii.eqb y c).
Qed.

Lemma replaceChar_back c d s :
  replaceChar d c (replaceChar c d s) = replaceChar d c s.
Proof.
  induction s as [| x s IH]; [reflexivity |].
  simpl. rewrite IH. f_equal.
  destruct (Ascii.eqb x c) eqn:Hxc.
  - apply Ascii.eqb_eq in Hxc as ->. rewrite Ascii.eqb_refl.
    by destruct (Ascii.eqb c d).
  - reflexivity.
Qed.

Lemma join_without x sep parts :
  occurs x sep = false ->
  Forall (fun part => occurs x part = false) parts ->
  occurs x (join sep parts) = false.
Proof.
  intros Hsep Hparts.
  induction Hparts as [| part parts Hp Hps IH]; [reflexivity |].
  destruct parts as [| next parts]; [exact Hp |].
  by rewrite join_cons, !occurs_app, Hp, Hsep, IH.
Qed.

Lemma join_not_empty sep part parts :
  part <> EmptyString -> join sep (part :: parts) <> EmptyString.
Proof.
  intros Hne. destruct parts as [| next parts]; [exact Hne |].
  rewrite join_cons. destruct part; [done | discriminate].
Qed.

End JsStringFacts.

(** ** The repository label of a notification *)

Module RepoNameProperties.

Import JsString JsStringFacts RepoName.

Abbreviation nonEmpty := (fun part : string => part ≠ EmptyString).

Lemma dropTrailingSlash_one c :
  dropTrailingSlash (String c EmptyString)
  = if Ascii.eqb c slash then EmptyString else String c EmptyString.
Proof. reflexivity. Qed.

Lemma dropTrailingSlash_more c c' s :
  dropTrailingSlash (String c (String c' s))
  = String c (dropTrailingSlash (String c' s)).
Proof. reflexivity. Qed.

(** Dropping the slash at the end removes one empty last piece and
    nothing else. *)
Lemma split_dropTrailingSlash s :
  hd EmptyString (splitOn slash (dropTrailingSlash s))
  = hd EmptyString (splitOn slash s)
  /\ filter nonEmpty (tail (splitOn slash (dropTrailingSlash s)))
     = filter nonEmpty (tail (splitOn slash s)).
Proof.
  induction s as [| c s IH]; [done |].
  destruct s as [| c' s'].
  - rewrite dropTrailingSlash_one.
    destruct (Ascii.eqb c slash) eqn:Hc; [| done].
    apply Ascii.eqb_eq in Hc as ->. rewrite splitOn_sep. done.
  - rewrite dropTrailingSlash_more. destruct IH as [IHhd IHtl].
    destruct (splitOn slash (dropTrailingSlash (String c' s')))
      as [| p ps] eqn:H1; [by apply splitOn_not_nil in H1 |].
    destruct (splitOn slash (String c' s'))
      as [| q qs] eqn:H2; [by apply splitOn_not_nil in H2 |].
    cbn [hd tail] in IHhd, IHtl. subst q.
    destruct (Ascii.eqb c slash) eqn:Hc.
    + apply Ascii.eqb_eq in Hc as ->. rewrite !splitOn_sep, H1, H2.
      cbn [hd tail]. split; [reflexivity |].
      by rewrite !filter_cons, IHtl.
    + destruct (splitOn_other slash c (dropTrailingSlash (String c' s')) Hc)
        as (p1 & ps1 & H1' & ->).
      destruct (splitOn_other slash c (String c' s') Hc)
        as (q1 & qs1 & H2' & ->).
      rewrite H1 in H1'. rewrite H2 in H2'.
      injection H1' as <- <-. injection H2' as <- <-.
      cbn [hd tail]. done.
Qed.

Lemma parts_dropTrailingSlash s :
  filter nonEmpty (splitOn slash (dropTrailingSlash s))
  = filter nonEmpty (splitOn slash s).
Proof.
  destruct (split_dropTrailingSlash s) as [Hhd Htl].
  destruct (splitOn slash (dropTrailingSlash s)) as [| p ps] eqn:H1;
    [by apply splitOn_not_nil in H1 |].
  destruct (splitOn slash s) as [| q qs] eqn:H2;
    [by apply splitOn_not_nil in H2 |].
  cbn [hd tail] in *. subst q. by rewrite !filter_cons, Htl.
Qed.

(** The name made of the segments that are not empty. *)
Lemma extractRepoName_parts cwd :
  extractRepoName cwd
  = let parts :=
      filter nonEmpty (splitOn slash (replaceChar backslash slash cwd)) in
    match parts with
    | [] => "unknown"
    | _ :: _ => join "-" (lastThree parts)
    end.
Proof.
  unfold extractRepoName. rewrite parts_dropTrailingSlash. cbn zeta.
  set (parts := filter nonEmpty _).
  assert (Hne : Forall nonEmpty parts).
  { apply Forall_forall. intros part Hin.
    by apply list_elem_of_filter in Hin as [Hne _]. }
  destruct (Nat.leb_spec 3 (length parts)) as [Hlen | Hlen].
  - destruct parts; [simpl in Hlen; lia | reflexivity].
  - unfold lastThree. replace (length parts - 3) with 0 by lia.
    rewrite drop_0. destruct parts as [| part parts']; [reflexivity |].
    apply Forall_cons in Hne as [Hpart _].
    pose proof (join_not_empty "-" part parts' Hpart) as Hj.
    by destruct (join "-" (part :: parts')).
Qed.

Lemma lastThree_not_nil part parts : lastThree (part :: parts) <> [].
Proof.
  unfold lastThree. intros Hnil.
  apply (f_equal length) in Hnil. rewrite length_drop in Hnil.
  simpl in Hnil. lia.
Qed.

(** X17: the label is never empty and holds no path separator.  For
    every working directory, [extractRepoName] returns a non-empty string
    without slash and without backslash; it is the word unknown when the
    directory has no segment at all (empty, or separators only). *)
Theorem extractRepoName_is_a_plain_label cwd :
  extractRepoName cwd <> EmptyString
  /\ occurs slash (extractRepoName cwd) = false
  /\ occurs backslash (extractRepoName cwd) = false
  /\ (filter nonEmpty (splitOn slash (replaceChar backslash slash cwd)) = []
      -> extractRepoName cwd = "unknown").
Proof.
  rewrite extractRepoName_parts. cbn zeta.
  pose proof (splitOn_pieces_without_sep slash
                (replaceChar backslash slash cwd)) as Hslash.
  pose proof (splitOn_pieces_without backslash slash
                (replaceChar backslash slash cwd)
                (replaceChar_removes backslash slash cwd eq_refl)) as Hback.
  set (pieces := splitOn slash (replaceChar backslash slash cwd)) in *.
  assert (Hparts : Forall (fun part => part <> EmptyString
                             /\ occurs slash part = false
                             /\ occurs backslash part = false)
                     (filter nonEmpty pieces)).
  { apply Forall_forall. intros part Hin.
    apply list_elem_of_filter in Hin as [Hne Hin].
    rewrite Forall_forall in Hslash, Hback. auto. }
  destruct (filter nonEmpty pieces) as [| part parts] eqn:Hf;
    [by repeat split |].
  assert (Hlast : Forall (fun part => part <> EmptyString
                            /\ occurs slash part = false
                            /\ occurs backslash part = false)
                    (lastThree (part :: parts))).
  { unfold lastThree. by apply Forall_drop. }
  pose proof (lastThree_not_nil part parts) as Hnn.
  destruct (lastThree (part :: parts)) as [| p ps]; [done |].
  split; [| split; [| split; [| discriminate]]].
  - apply join_not_empty. by apply Forall_cons in Hlast as [[? _] _].
  - apply join_without; [reflexivity |].
    eapply Forall_impl; [exact Hlast |]. simpl. tauto.
  - apply join_without; [reflexivity |].
    eapply Forall_impl; [exact Hlast |]. simpl. tauto.
Qed.

(** X18: the label is made of the last three segments.  For a path
    written as pieces joined by slashes, where no piece holds a slash or
    a backslash, the empty pieces (a leading, a doubled or a trailing
    slash) are ignored and the last three of the others are joined by
    dashes; all of them when there are fewer than three. *)
Theorem extractRepoName_joins_last_three pieces :
  Forall (fun piece => occurs slash piece = false
                       /\ occurs backslash piece = false) pieces ->
  extractRepoName (join "/" pieces)
  = match filter nonEmpty pieces with
    | [] => "unknown"
    | part :: parts => join "-" (lastThree (part :: parts))
    end.
Proof.
  intros Hfree. rewrite extractRepoName_parts. cbn zeta.
  rewrite replaceChar_without.
  - destruct pieces as [| piece pieces']; [reflexivity |].
    change "/" with (String slash EmptyString).
    rewrite splitOn_join;
      [by destruct (filter nonEmpty (piece :: pieces')) | done |].
    eapply Forall_impl; [exact Hfree |]. simpl. tauto.
  - apply join_without; [reflexivity |].
    eapply Forall_impl; [exact Hfree |]. simpl. tauto.
Qed.

Lemma extractRepoName_joins_last_three_witness :
  extractRepoName (join "/" [""; "home"; "user"; "work"; "repo"; ""])
  = match filter nonEmpty [""; "home"; "user"; "work"; "repo"; ""] with
    | [] => "unknown"
    | part :: parts => join "-" (lastThree (part :: parts))
    end.
Proof.
  apply (extractRepoName_joins_last_three
           [""; "home"; "user"; "work"; "repo"; ""]).
  repeat constructor.
Defined.

(** X19: the two spellings of a path give the same label.  Writing every
    slash of a working directory as a backslash does not change the
    result. *)
Theorem extractRepoName_ignores_separator_style cwd :
  extractRepoName (replaceChar slash backslash cwd) = extractRepoName cwd.
Proof.
  rewrite !extractRepoName_parts. cbn zeta.
  by rewrite replaceChar_back.
Qed.

End RepoNameProperties.

(** ** Windows paths of conversation logs *)

Module WindowsPathProperties.

Import JsString JsStringFacts WindowsPath.

Abbreviation dollar := (Ascii.ascii_of_nat 36).

Lemma getSubstitution_plain matched after template :
  occurs dollar template = false ->
  getSubstitution matched after template = template.
Proof.
  induction template as [| c template IH]; [reflexivity |].
  simpl occurs. intros [Hc Ht]%orb_false_iff.
  cbn [getSubstitution]. rewrite Hc. by rewrite (IH Ht).
Qed.

Lemma prefix_app a b : String.prefix a (a +:+ b) = true.
Proof.
  induction a as [| c a IH]; [by destruct b |].
  rewrite append_cons. cbn [String.prefix].
  destruct (Ascii.ascii_dec c c); [exact IH | done].
Qed.

Lemma substring_all n s : n = String.length s -> String.substring 0 n s = s.
Proof.
  intros ->. induction s as [| c s IH]; [reflexivity |].
  simpl. by rewrite IH.
Qed.

Lemma substring_after a b :
  String.substring (String.length a)
    (String.length (a +:+ b) - String.length a) (a +:+ b)
  = b.
Proof.
  induction a as [| c a IH].
  - rewrite append_nil. apply substring_all. simpl. lia.
  - rewrite append_cons. exact IH.
Qed.

Lemma replacePrefix_plain prefix suffix replacement :
  occurs dollar replacement = false ->
  replacePrefix (prefix +:+ suffix) prefix replacement
  = replacement +:+ suffix.
Proof.
  intros Hplain. unfold replacePrefix.
  by rewrite substring_after, getSubstitution_plain.
Qed.

Lemma toUpperCase_letter d :
  isLetter d = true ->
  isLetter (toUpperCase d) = true
  /\ toUpperCase (toUpperCase d) = toUpperCase d.
Proof.
  destruct d as [[] [] [] [] [] [] [] []]; vm_compute; intros H;
    first [discriminate H | by split].
Qed.

Lemma driveOf_three d c1 c2 tail :
  driveOf (String d (String c1 (String c2 tail)))
  = if isLetter d && Ascii.eqb c1 (Ascii.ascii_of_nat 58)
       && Ascii.eqb c2 backslash
    then Some (d, tail) else None.
Proof. reflexivity. Qed.

Lemma driveOf_cons d tail :
  isLetter d = true ->
  driveOf (String d (String (Ascii.ascii_of_nat 58) (String backslash tail)))
  = Some (d, tail).
Proof. intros Hd. unfold driveOf. by rewrite Hd, !Ascii.eqb_refl. Qed.

(** X20: a Windows path that no mapping covers.  If the path has a drive
    and no mapping prefix matches, the result is a slash, the upper-case
    drive letter, a colon, a slash and the rest with every backslash
    turned into a slash; the result holds no backslash; and normalizing
    the result again, under any mappings (even unreadable ones), gives
    it back unchanged. *)
Theorem normalizeWindowsPath_unmapped p d tail entries :
  driveOf p = Some (d, tail) ->
  Forall
    (fun entry =>
       String.prefix (fst entry)
         (String (toUpperCase d) (":/" +:+ replaceChar backslash slash tail))
       = false)
    entries ->
  normalizeWindowsPath (Success entries) p = Success (unixForm d tail)
  /\ occurs backslash (unixForm d tail) = false
  /\ forall mappings,
       normalizeWindowsPath mappings (unixForm d tail)
       = Success (unixForm d tail).
Proof.
  intros Hdrive Hnone. split; [| split].
  - unfold normalizeWindowsPath. rewrite Hdrive.
    replace (find _ entries) with (@None (string * string)); [reflexivity |].
    symmetry. induction Hnone as [| entry entries He _ IH]; [reflexivity |].
    cbn [find]. rewrite He. exact IH.
  - unfold unixForm. cbn [occurs].
    rewrite occurs_app, replaceChar_removes by reflexivity.
    unfold driveOf in Hdrive.
    destruct p as [| d0 [| c1 [| c2 rest]]]; try discriminate.
    destruct (isLetter d0) eqn:Hletter; [| discriminate].
    destruct (Ascii.eqb c1 _); [| discriminate].
    destruct (Ascii.eqb c2 _); [| discriminate].
    injection Hdrive as -> <-.
    destruct d as [[] [] [] [] [] [] [] []]; vm_compute in Hletter |- *;
      first [discriminate Hletter | reflexivity].
  - intros mappings. reflexivity.
Qed.

Lemma normalizeWindowsPath_unmapped_witness :
  normalizeWindowsPath (Success [("D:/", "/mnt/d/")]) samplePath
  = Success (unixForm lowerC "Users\me\repo")
  /\ occurs backslash (unixForm lowerC "Users\me\repo") = false
  /\ forall mappings,
       normalizeWindowsPath mappings (unixForm lowerC "Users\me\repo")
       = Success (unixForm lowerC "Users\me\repo").
Proof.
  apply (normalizeWindowsPath_unmapped samplePath lowerC
           "Users\me\repo" [("D:/", "/mnt/d/")]).
  - reflexivity.
  - repeat constructor.
Defined.

(** X21: the first mapping that matches decides.  If the path has a
    drive, its normalized form (upper-case drive, colon, slashes) is
    [winPrefix] followed by [suffix], no earlier mapping prefix matches
    and [linuxPrefix] holds no dollar sign, then the result is
    [linuxPrefix] followed by [suffix], whatever mappings come later. *)
Theorem normalizeWindowsPath_first_mapping_wins
    p d tail earlier winPrefix linuxPrefix later suffix :
  driveOf p = Some (d, tail) ->
  String (toUpperCase d) (":/" +:+ replaceChar backslash slash tail)
  = winPrefix +:+ suffix ->
  Forall (fun entry => String.prefix (fst entry) (winPrefix +:+ suffix) = false)
    earlier ->
  occurs dollar linuxPrefix = false ->
  normalizeWindowsPath
    (Success (earlier ++ (winPrefix, linuxPrefix) :: later)%list) p
  = Success (linuxPrefix +:+ suffix).
Proof.
  intros Hdrive Hnorm Hearlier Hplain.
  unfold normalizeWindowsPath. rewrite Hdrive. cbn zeta. rewrite Hnorm.
  replace (find _ (earlier ++ (winPrefix, linuxPrefix) :: later)%list)
    with (Some (winPrefix, linuxPrefix)).
  - by rewrite replacePrefix_plain.
  - symmetry. induction Hearlier as [| entry earlier He _ IH].
    + cbn [app find fst]. by rewrite prefix_app.
    + cbn [app find]. rewrite He. exact IH.
Qed.

Lemma normalizeWindowsPath_first_mapping_wins_witness :
  normalizeWindowsPath
    (Success ([("D:/", "/mnt/d/")]
                ++ ("C:/Users", "/home") :: [("C:/", "/mnt/c/")])%list)
    samplePath
  = Success ("/home" +:+ "/me/repo").
Proof.
  apply (normalizeWindowsPath_first_mapping_wins samplePath
           lowerC
           "Users\me\repo" [("D:/", "/mnt/d/")] "C:/Users" "/home"
           [("C:/", "/mnt/c/")] "/me/repo").
  - reflexivity.
  - reflexivity.
  - repeat constructor.
  - reflexivity.
Defined.

(** X22: the case of the drive letter does not matter.  A path that
    starts with a lower-case drive letter, a colon and a backslash, and
    the same path with the letter in upper case, are normalized to the
    same result under any mappings. *)
Theorem normalizeWindowsPath_ignores_drive_case mappings d tail :
  isLetter d = true ->
  normalizeWindowsPath mappings
    (String (toUpperCase d)
       (String (Ascii.ascii_of_nat 58) (String backslash tail)))
  = normalizeWindowsPath mappings
      (String d (String (Ascii.ascii_of_nat 58) (String backslash tail))).
Proof.
  intros Hd. destruct (toUpperCase_letter d Hd) as [Hup Hidem].
  unfold normalizeWindowsPath.
  rewrite (driveOf_cons d tail Hd), (driveOf_cons (toUpperCase d) tail Hup).
  by rewrite Hidem.
Qed.

Lemma normalizeWindowsPath_ignores_drive_case_witness :
  normalizeWindowsPath (Success [("C:/Users", "/home")])
    (String (toUpperCase lowerC)
       (String (Ascii.ascii_of_nat 58) (String backslash "Users\me")))
  = normalizeWindowsPath (Success [("C:/Users", "/home")])
      (String lowerC
         (String (Ascii.ascii_of_nat 58) (String backslash "Users\me"))).
Proof.
  apply (normalizeWindowsPath_ignores_drive_case
           (Success [("C:/Users", "/home")]) lowerC "Users\me").
  reflexivity.
Defined.

End WindowsPathProperties.

(** ** The project identifier of the tasks service *)

Module TasksServiceProperties.

Import JsString JsStringFacts TasksService.

Lemma prefix_dash s :
  String.prefix "-" s = true <-> exists rest, s = String dash rest.
Proof.
  destruct s as [| c s]; cbn [String.prefix].
  - split; [discriminate | intros [rest H]; discriminate].
  - match goal with
    | |- context [Ascii.ascii_dec ?a ?b] =>
        destruct (Ascii.ascii_dec a b) as [<- | Hne]
    end.
    + split; [by exists s | by destruct s].
    + split; [discriminate |]. intros [rest [= -> _]]. by destruct Hne.
Qed.

(** X23: the identifier of a project path.  For a separator other than
    the dash, [normalizeProjectPath] returns a string that starts with a
    dash and holds no separator; applying it again changes nothing; and
    for a path that starts with the separator no dash is added: the
    result is the path with each separator turned into a dash. *)
Theorem normalizeProjectPath_shape sep projectPath :
  Ascii.eqb dash sep = false ->
  String.prefix "-" (normalizeProjectPath sep projectPath) = true
  /\ occurs sep (normalizeProjectPath sep projectPath) = false
  /\ normalizeProjectPath sep (normalizeProjectPath sep projectPath)
     = normalizeProjectPath sep projectPath
  /\ (forall rest,
        projectPath = String sep rest ->
        normalizeProjectPath sep projectPath
        = replaceChar sep dash projectPath).
Proof.
  intros Hsep.
  assert (Hshape : String.prefix "-" (normalizeProjectPath sep projectPath)
                   = true
                   /\ occurs sep (normalizeProjectPath sep projectPath)
                      = false).
  { unfold normalizeProjectPath.
    destruct (String.prefix "-" (replaceChar sep dash projectPath)) eqn:Hp.
    - split; [exact Hp | by apply replaceChar_removes].
    - split; [apply prefix_dash; by eexists |].
      cbn [occurs]. by rewrite Hsep, replaceChar_removes. }
  destruct Hshape as [Hdash Hfree].
  split; [exact Hdash |]. split; [exact Hfree |]. split.
  - unfold normalizeProjectPath at 1.
    rewrite (replaceChar_without _ _ _ Hfree). by rewrite Hdash.
  - intros rest ->. unfold normalizeProjectPath.
    cbn [replaceChar]. rewrite Ascii.eqb_refl.
    replace (String.prefix "-" (String dash (replaceChar sep dash rest)))
      with true; [reflexivity |].
    symmetry. apply prefix_dash. by eexists.
Qed.

Lemma normalizeProjectPath_shape_witness :
  String.prefix "-" (normalizeProjectPath slash "/Users/foo/bar") = true
  /\ occurs slash (normalizeProjectPath slash "/Users/foo/bar") = false
  /\ normalizeProjectPath slash (normalizeProjectPath slash "/Users/foo/bar")
     = normalizeProjectPath slash "/Users/foo/bar"
  /\ (forall rest,
        "/Users/foo/bar" = String slash rest ->
        normalizeProjectPath slash "/Users/foo/bar"
        = replaceChar slash dash "/Users/foo/bar").
Proof.
  apply (normalizeProjectPath_shape slash "/Users/foo/bar"). reflexivity.
Defined.

End TasksServiceProperties.

(** ** The message input of the routes *)

Module UserMessageProperties.

Import UserMessage.

Section WithSource.

Variable Source : Type.
Variable truthy : Source -> bool.

Lemma mapDocuments_spec (docs : list (DocumentInput Source)) :
  match mapDocuments truthy docs with
  | Failure e =>
      e = "Document source is required"
      /\ Exists (fun document => lacksSource truthy document = true) docs
  | Success mapped =>
      Forall (fun document => lacksSource truthy document = false) docs
      /\ map (fun document => (documentType document, documentSource document))
           docs
         = map (fun part => (type part, Some (source part))) mapped
  end.
Proof.
  induction docs as [| document docs IH]; [by split |].
  cbn [mapDocuments]. unfold lacksSource at 1 2.
  destruct (documentSource document) as [s |] eqn:Hs.
  - destruct (truthy s) eqn:Ht; cbn [negb].
    + destruct (mapDocuments truthy docs) as [mapped | e].
      * destruct IH as [Hall Hmap]. split.
        -- constructor; [by rewrite Hs, Ht | exact Hall].
        -- cbn [map type source]. by rewrite Hs, Hmap.
      * destruct IH as [-> Hex]. split; [reflexivity | by right].
    + split; [reflexivity |]. left. by rewrite Hs, Ht.
  - split; [reflexivity |]. left. by rewrite Hs.
Qed.

(** X24: [normalizeUserMessageInput] throws exactly when some document
    has no source or a source that converts to false (the test is
    [!document.source]), and then with the message Document source is
    required.  Otherwise it returns the text as given, and the images
    and the documents one for one, in order, each reduced to its type
    and its source. *)
Theorem normalizeUserMessageInput_requires_sources
    (input : Input Source) :
  match normalizeUserMessageInput truthy input with
  | Failure e =>
      e = "Document source is required"
      /\ exists docs,
           inputDocuments input = Some docs
           /\ Exists (fun document => lacksSource truthy document = true) docs
  | Success message =>
      text message = inputText input
      /\ images message
         = (map (fun image => {| type := imageType image;
                                 source := imageSource image |}))
             <$> inputImages input
      /\ match inputDocuments input, documents message with
         | None, None => True
         | Some docs, Some mapped =>
             Forall (fun document => lacksSource truthy document = false)
               docs
             /\ map (fun document =>
                       (documentType document, documentSource document))
                  docs
                = map (fun part => (type part, Some (source part))) mapped
         | _, _ => False
         end
  end.
Proof.
  unfold normalizeUserMessageInput.
  destruct (inputDocuments input) as [docs |].
  - pose proof (mapDocuments_spec docs) as Hspec.
    destruct (mapDocuments truthy docs) as [mapped | e].
    + cbn. by destruct (inputImages input).
    + destruct Hspec as [-> Hex]. split; [reflexivity |]. by exists docs.
  - cbn. by destruct (inputImages input).
Qed.

End WithSource.

(** A document whose source is the empty string is refused like one
    without a source. *)
Example empty_source_is_refused :
  normalizeUserMessageInput stringTruthy
    {| inputText := "see the attachment";
       inputImages := None;
       inputDocuments :=
         Some [{| documentType := "document";
                  documentSource := Some "";
                  documentOther := [] |}] |}
  = Failure "Document source is required".
Proof. reflexivity. Qed.

End UserMessageProperties.
